(** * Sallen-Key low-pass filter notebook (SallenKey.ipynb)

    The notebook has two code cells.  The first derives the components
    [C1], [C2], [R1], [R2] of a unity-gain Sallen-Key filter from the cutoff
    frequency [fc], the quality factor [Q], the resistor ratio [m] and the
    capacitance [C]; the second defines the transfer function [H] and the
    magnitude [M] and phase [A] curves that are plotted.

    The cells are transcribed once, over an interface [PyFloat] of the
    arithmetic that a Python [float] offers, with the exceptions that
    CPython 3.7 raises written out in an error monad: ZeroDivisionError of
    [/], OverflowError of [**], ValueError of [math.sqrt] and [math.log10].
    The interface has two instances.
    - [RealArith]: exact real arithmetic.  It is the meaning of the formulas
      of the specification.  A property that is stated on it says so, and
      says beside it where the run in binary64 departs from it.
    - [Binary64]: IEEE-754 binary64, every operation rounded to nearest
      even.  The cells run on it and reproduce the output that the notebook
      stores; it also shows what NaN and out-of-range parameters do.

    The text that the [print] calls of the first cell write is modelled on
    binary64 ([format_2_2f], [cell1_output]); the frequency vector of the
    second cell, [np.logspace], is modelled in exact arithmetic
    ([logspace]).  [H_canonical], [cutoff_frequency] and [quality_factor]
    are the equations of the text that precedes the first cell. *)

From Stdlib Require Import ZArith QArith List String Bool.
From Stdlib Require Import Floats.
From Stdlib Require Import Reals Lra Lia.
From Stdlib Require Import Qabs Ascii DecimalString.
From Stdlib Require Lqa.
Import ListNotations.

(** ** Python exceptions *)

Inductive exn : Type :=
| ZeroDivisionError
| OverflowError
| ValueError.

Inductive result (A : Type) : Type :=
| Ok (a : A)
| Raise (e : exn).

Arguments Ok {A} a.
Arguments Raise {A} e.

Definition bind {A B : Type} (r : result A) (k : A -> result B) : result B :=
  match r with
  | Ok a => k a
  | Raise e => Raise e
  end.

Notation "x <- r ;; k" := (bind r (fun x => k))
  (at level 61, r at next level, right associativity).

Definition raises {A : Type} (r : result A) : Prop :=
  exists e, r = Raise e.

Definition returns {A : Type} (r : result A) : Prop :=
  exists a, r = Ok a.

(** ** The arithmetic of a Python float *)

Class PyFloat (T : Type) : Type := {
  of_Z : Z -> T;              (* an integer literal, or int -> float *)
  pi : T;                     (* math.pi *)
  nan : T;                    (* Py_NAN *)
  add : T -> T -> T;
  sub : T -> T -> T;
  mul : T -> T -> T;
  quot : T -> T -> T;         (* the machine division, divisor nonzero *)
  opp : T -> T;
  fabs : T -> T;             (* C fabs *)
  root : T -> T;              (* C sqrt *)
  eqb : T -> T -> bool;
  ltb : T -> T -> bool;
  leb : T -> T -> bool;
  is_inf : T -> bool;         (* Py_IS_INFINITY *)
  is_finite : T -> bool       (* Py_IS_FINITE *)
}.

Declare Scope py_scope.
Delimit Scope py_scope with py.
Notation "x + y" := (add x y) : py_scope.
Notation "x - y" := (sub x y) : py_scope.
Notation "x * y" := (mul x y) : py_scope.
Notation "- x" := (opp x) : py_scope.

(** The functions of the C library behind [abs] of a complex number,
    [math.log10] and [cmath.phase]. *)
Class Libm (T : Type) : Type := {
  hypot : T -> T -> T;
  log10 : T -> T;
  atan2 : T -> T -> T
}.

Section Floats.
Context {T : Type} {arith : PyFloat T} {libm : Libm T}.
Local Open Scope py_scope.

(** [x / y] on floats: float_div raises on a zero divisor. *)
Definition py_div (x y : T) : result T :=
  if eqb y (of_Z 0) then Raise ZeroDivisionError else Ok (quot x y).

(** [x ** 2] on floats: float_pow hands a NaN or an infinity back without
    calling pow, and turns an overflow of pow into OverflowError.  The
    square that pow returns is taken to be the correctly rounded [x * x].
    The pow of a C library need not be correctly rounded: where it is not,
    the [n] of the program differs from this one in the last bit.  It is
    exact where the square is a binary64 number, as at the powers of two
    and the small integers of the examples below. *)
Definition py_pow2 (x : T) : result T :=
  let y := x * x in
  if is_finite x && negb (is_finite y) then Raise OverflowError else Ok y.

(** [math.sqrt]: a negative argument is a domain error. *)
Definition math_sqrt (x : T) : result T :=
  if ltb x (of_Z 0) then Raise ValueError else Ok (root x).

(** *** First cell: the component values *)

Record ComponentValues : Type := {
  C1 : T;
  C2 : T;
  R1 : T;
  R2 : T
}.

(** [n = (Q*(m+1))**2/m] *)
Definition n (Q m : T) : result T :=
  sq <- py_pow2 (Q * (m + of_Z 1)) ;;
  py_div sq m.

(** [R = 1./(2*math.pi*C*fc*math.sqrt(m*n))], written [R_] because [R] is
    the type of the real numbers. *)
Definition R_ (fc m C n : T) : result T :=
  rt <- math_sqrt (m * n) ;;
  py_div (of_Z 1) (of_Z 2 * pi * C * fc * rt).

(** The assignments of the cell, in the order of the source.  Only the
    lines of [n] and [R] can raise, and they come before the first
    [print]. *)
Definition synthesize (fc Q C m : T) : result ComponentValues :=
  n <- n Q m ;;
  R <- R_ fc m C n ;;
  Ok {| C1 := C; C2 := n * C; R1 := m * R; R2 := R |}.

(** The four [print] calls: the format and the number that it formats. *)
Definition report (cv : ComponentValues) : list (string * T) :=
  [ (" C1 = %2.2f nF"%string, C1 cv * of_Z 1000000000);
    (" C2 = %2.2f nF"%string, C2 cv * of_Z 1000000000);
    (" R1 = %2.2f Ohm"%string, R1 cv);
    (" R2 = %2.2f Ohm"%string, R2 cv) ].

Definition cell1 (fc Q C m : T) : result (list (string * T)) :=
  cv <- synthesize fc Q C m ;;
  Ok (report cv).

(** The parameters as the notebook sets them: [fc = 10],
    [Q = 1/math.sqrt(2)], [m = 1.] and [C = 330.e-9], the last one given as
    the value that the literal has. *)
Definition Q_line : result T :=
  rt <- math_sqrt (of_Z 2) ;;
  py_div (of_Z 1) rt.

Definition notebook (C : T) : result ComponentValues :=
  Q <- Q_line ;;
  synthesize (of_Z 10) Q C (of_Z 1).

(** *** Python complex numbers (Py_complex) *)

Record complex : Type := Complex { real : T; imag : T }.

Definition c_1 : complex := Complex (of_Z 1) (of_Z 0).
Definition c_j : complex := Complex (of_Z 0) (of_Z 1).      (* 1j *)

(** A float or an int that meets a complex is converted first. *)
Definition to_complex (x : T) : complex := Complex x (of_Z 0).

Definition c_sum (a b : complex) : complex :=
  Complex (real a + real b) (imag a + imag b).

Definition c_prod (a b : complex) : complex :=
  Complex (real a * real b - imag a * imag b)
          (real a * imag b + imag a * real b).

(** [a / b] on complex numbers: _Py_c_quot scales by the larger of the two
    parts of the divisor, and complex_div turns its EDOM into
    ZeroDivisionError. *)
Definition c_quot (a b : complex) : result complex :=
  let abs_breal := if ltb (real b) (of_Z 0) then - real b else real b in
  let abs_bimag := if ltb (imag b) (of_Z 0) then - imag b else imag b in
  if leb abs_bimag abs_breal then
    if eqb abs_breal (of_Z 0) then Raise ZeroDivisionError
    else
      let ratio := quot (imag b) (real b) in
      let denom := real b + imag b * ratio in
      Ok (Complex (quot (real a + imag a * ratio) denom)
                  (quot (imag a - real a * ratio) denom))
  else if leb abs_breal abs_bimag then
    let ratio := quot (real b) (imag b) in
    let denom := real b * ratio + imag b in
    Ok (Complex (quot (real a * ratio + imag a) denom)
                (quot (imag a * ratio - real a) denom))
  else Ok (Complex nan nan).

(** [z ** 2] on complex numbers: complex_pow sends a small integer
    exponent to c_powu, which for 2 returns [c_1 * (z * z)], and reports
    an infinite part of the result as OverflowError. *)
Definition c_pow2 (z : complex) : result complex :=
  let r := c_prod c_1 (c_prod z z) in
  if is_inf (real r) || is_inf (imag r) then Raise OverflowError else Ok r.

(** *** Second cell: the transfer function *)

(** [s = lambda f: 2*math.pi*f*1j] *)
Definition s (f : T) : complex :=
  c_prod (to_complex (of_Z 2 * pi * f)) c_j.

(** The divisor of [H]:
    [s(f)**2*R1*C1*R2*C2 + s(f)*(R1*C1+R2*C1) + 1] *)
Definition denominator (cv : ComponentValues) (f : T) : result complex :=
  p <- c_pow2 (s f) ;;
  let t2 :=
    c_prod
      (c_prod (c_prod (c_prod p (to_complex (R1 cv))) (to_complex (C1 cv)))
              (to_complex (R2 cv)))
      (to_complex (C2 cv)) in
  let t1 := c_prod (s f) (to_complex (R1 cv * C1 cv + R2 cv * C1 cv)) in
  Ok (c_sum (c_sum t2 t1) (to_complex (of_Z 1))).

(** [H = lambda f: 1/(s(f)**2*R1*C1*R2*C2 + s(f)*(R1*C1+R2*C1) + 1)] *)
Definition H (cv : ComponentValues) (f : T) : result complex :=
  d <- denominator cv f ;;
  c_quot (to_complex (of_Z 1)) d.

(** [abs(z)] on a complex number: _Py_c_abs calls hypot on finite parts
    and complex_abs reports an infinite result as OverflowError. *)
Definition complex_abs (z : complex) : result T :=
  if is_finite (real z) && is_finite (imag z) then
    let r := hypot (real z) (imag z) in
    if is_finite r then Ok r else Raise OverflowError
  else if is_inf (real z) then Ok (fabs (real z))
  else if is_inf (imag z) then Ok (fabs (imag z))
  else Ok nan.

(** [math.log10]: zero and the negative numbers are a domain error. *)
Definition math_log10 (x : T) : result T :=
  if leb x (of_Z 0) then Raise ValueError else Ok (log10 x).

(** [cmath.phase]: c_atan2 of cmathmodule.c answers a NaN, an infinite or a
    zero part by itself, with the values that atan2 has there, and calls
    atan2 otherwise. *)
Definition cmath_phase (z : complex) : T := atan2 (imag z) (real z).

(** [M = lambda f: 20*math.log10(abs(H(f)))] *)
Definition M (cv : ComponentValues) (f : T) : result T :=
  h <- H cv f ;;
  a <- complex_abs h ;;
  l <- math_log10 a ;;
  Ok (of_Z 20 * l).

(** [A = lambda f: 180/math.pi*cmath.phase(H(f))] *)
Definition A (cv : ComponentValues) (f : T) : result T :=
  k <- py_div (of_Z 180) pi ;;
  h <- H cv f ;;
  Ok (k * cmath_phase h).

(** [list(map(g, freqs))]: the samples are computed one after the other,
    and an exception raised at one of them ends the whole call.  The
    elements of the numpy array [freqs] are float64 scalars, on which the
    lambdas run numpy's complex arithmetic: it agrees with Python's in exact
    arithmetic, and it warns where Python raises in a division or a
    power. *)
Fixpoint sweep {B : Type} (g : T -> result B) (freqs : list T)
  : result (list B) :=
  match freqs with
  | [] => Ok []
  | f :: rest =>
      y <- g f ;;
      ys <- sweep g rest ;;
      Ok (y :: ys)
  end.


End Floats.

Arguments ComponentValues T : clear implicits.
Arguments complex T : clear implicits.

(** ** Instance: IEEE-754 binary64 *)

Definition of_Z_float (z : Z) : float :=
  match z with
  | Z0 => PrimFloat.zero
  | Zpos p => PrimFloat.of_uint63 (Uint63.of_Z z)
  | Zneg p => PrimFloat.opp (PrimFloat.of_uint63 (Uint63.of_Z (Zpos p)))
  end.

#[export] Instance Binary64 : PyFloat float := {
  of_Z := of_Z_float;
  pi := 0x1.921fb54442d18p+1%float;
  nan := PrimFloat.nan;
  add := PrimFloat.add;
  sub := PrimFloat.sub;
  mul := PrimFloat.mul;
  quot := PrimFloat.div;
  opp := PrimFloat.opp;
  fabs := PrimFloat.abs;
  root := PrimFloat.sqrt;
  eqb := PrimFloat.eqb;
  ltb := PrimFloat.ltb;
  leb := PrimFloat.leb;
  is_inf := PrimFloat.is_infinity;
  is_finite := PrimFloat.is_finite
}.


(** ** Instance: exact real arithmetic *)

Definition Reqb (x y : R) : bool := if Req_dec_T x y then true else false.
Definition Rltb (x y : R) : bool := if Rlt_dec x y then true else false.
Definition Rleb (x y : R) : bool := if Rle_dec x y then true else false.

(** No real number is infinite or unordered: [nan] is never reached. *)
#[export] Instance RealArith : PyFloat R := {
  of_Z := IZR;
  pi := PI;
  nan := 0%R;
  add := Rplus;
  sub := Rminus;
  mul := Rmult;
  quot := Rdiv;
  opp := Ropp;
  fabs := Rabs;
  root := sqrt;
  eqb := Reqb;
  ltb := Rltb;
  leb := Rleb;
  is_inf := fun _ => false;
  is_finite := fun _ => true
}.

(** The angle of the point [(x, y)], in the interval from [-PI] to [PI]. *)
Definition Ratan2 (y x : R) : R :=
  if Rlt_dec 0 x then atan (y / x)
  else if Rlt_dec x 0 then
    if Rle_dec 0 y then (atan (y / x) + PI)%R else (atan (y / x) - PI)%R
  else if Rlt_dec 0 y then (PI / 2)%R
  else if Rlt_dec y 0 then (- (PI / 2))%R
  else 0%R.

#[export] Instance RealLibm : Libm R := {
  hypot := fun x y => sqrt (x * x + y * y);
  log10 := fun x => (ln x / ln 10)%R;
  atan2 := Ratan2
}.

(** ** The formulas of the specification, in exact arithmetic *)

Local Open Scope R_scope.

Definition spec_n (Q m : R) : R := (Q * (m + 1)) ^ 2 / m.

Definition spec_R (fc Q C m : R) : R :=
  1 / (2 * PI * C * fc * sqrt (m * spec_n Q m)).

Definition spec_synthesize (fc Q C m : R) : ComponentValues R :=
  {| C1 := C;
     C2 := spec_n Q m * C;
     R1 := m * spec_R fc Q C m;
     R2 := spec_R fc Q C m |}.

Definition valid (cv : ComponentValues R) : Prop :=
  0 < C1 cv /\ 0 < C2 cv /\ 0 < R1 cv /\ 0 < R2 cv.

(** The divisor of the line of [R]. *)
Definition divisor (fc Q C m : R) : R :=
  2 * PI * C * fc * sqrt (m * spec_n Q m).

(** The field of complex numbers: sum, product and inverse as in a
    textbook. *)
Definition Cre (x : R) : complex R := Complex x 0.
Definition Cadd (a b : complex R) : complex R :=
  Complex (real a + real b) (imag a + imag b).
Definition Cmul (a b : complex R) : complex R :=
  Complex (real a * real b - imag a * imag b)
          (real a * imag b + imag a * real b).
Definition Cnorm2 (z : complex R) : R := real z * real z + imag z * imag z.
Definition Cinv (z : complex R) : complex R :=
  Complex (real z / Cnorm2 z) (- imag z / Cnorm2 z).
Definition Cmod (z : complex R) : R := sqrt (Cnorm2 z).

(** [s = 2 pi f i] *)
Definition spec_s (f : R) : complex R := Complex 0 (2 * PI * f).

(** [s^2 R1 C1 R2 C2 + s (R1 C1 + R2 C1) + 1] *)
Definition spec_denominator (cv : ComponentValues R) (f : R) : complex R :=
  Cadd (Cadd (Cmul (Cmul (spec_s f) (spec_s f))
                   (Cre (R1 cv * C1 cv * R2 cv * C2 cv)))
             (Cmul (spec_s f) (Cre (R1 cv * C1 cv + R2 cv * C1 cv))))
       (Cre 1).

(** [H(f) = 1 / (s^2 R1 C1 R2 C2 + s (R1 C1 + R2 C1) + 1)] *)
Definition spec_H (cv : ComponentValues R) (f : R) : complex R :=
  Cinv (spec_denominator cv f).

(** [20 log10 |H(f)|] and [(180 / pi) arg H(f)] *)
Definition spec_magnitude_db (cv : ComponentValues R) (f : R) : R :=
  20 * (ln (Cmod (spec_H cv f)) / ln 10).
Definition spec_phase_degrees (cv : ComponentValues R) (f : R) : R :=
  180 / PI * Ratan2 (imag (spec_H cv f)) (real (spec_H cv f)).

(** The value of [Q] in the notebook, [1/math.sqrt(2)]: the nearest
    binary64 number to the quotient, which Python prints as
    0.7071067811865475. *)
Definition Q_notebook : float := 0x1.6a09e667f3bccp-1%float.

(** The value of [C] in the notebook, [330.e-9]: the binary64 number nearest
    to the literal. *)
Definition C_notebook : float := 0x1.6255b5942109cp-22%float.

(** Component values outside the data model, on which the divisor of [H]
    vanishes at the angular frequency 1. *)
Definition cv_degenerate {T : Type} {arith : PyFloat T} : ComponentValues T :=
  {| C1 := of_Z 1; C2 := of_Z (-1); R1 := of_Z 1; R2 := of_Z (-1) |}.

(** The squared modulus of the divisor of [H], as a function of the
    frequency. *)
Definition norm2_denominator (cv : ComponentValues R) (f : R) : R :=
  (1 - (2 * PI * f) ^ 2 * (R1 cv * C1 cv * R2 cv * C2 cv)) ^ 2 +
  (2 * PI * f * (R1 cv * C1 cv + R2 cv * C1 cv)) ^ 2.

(** The parameters of the notebook, in exact arithmetic. *)
Definition Q_butterworth : R := 1 / sqrt 2.
Definition C_330nF : R := 330e-9.

(** The rational number that a finite binary64 number stands for. *)
Definition float_to_Q (x : float) : option Q :=
  match Prim2SF x with
  | S754_zero _ => Some 0%Q
  | S754_finite sign mant e =>
      let v := (inject_Z (Zpos mant) * Qpower 2 e)%Q in
      Some (if sign then (- v)%Q else v)
  | S754_infinity _ => None
  | S754_nan => None
  end.

(** [lo <= x <= hi] for a binary64 number [x] and rational bounds. *)
Definition between (lo hi : Q) (x : float) : bool :=
  match float_to_Q x with
  | Some v => Qle_bool lo v && Qle_bool v hi
  | None => false
  end.

(** The component values that the first cell assigns in binary64 on the
    parameters of the notebook: in decimal, [C2] is 6.599999999999999e-07
    and [R1], [R2] are 34102.890763526746. *)
Definition cv_notebook : ComponentValues float :=
  {| C1 := C_notebook;
     C2 := 0x1.6255b5942109bp-21%float;
     R1 := 0x1.0a6dc812282fbp+15%float;
     R2 := 0x1.0a6dc812282fbp+15%float |}.

(** [freqs = np.logspace(-2, 3, 1000)]: the powers of 10 at [num] evenly
    spaced exponents from [start] to [stop], both included. *)
Definition logspace (start stop : R) (num : nat) : list R :=
  map (fun i => Rpower 10 (start + INR i * ((stop - start) / INR (num - 1))))
      (seq 0 num).

Definition freqs : list R := logspace (-2) 3 1000.

(** The formulas of the first cell with every operation rounded to
    binary64, in the order of the source, the square being the rounded
    product as in [py_pow2]. *)
Definition ieee_n (Q m : float) : float :=
  (Q * (m + 1) * (Q * (m + 1)) / m)%float.

Definition ieee_R (fc Q C m : float) : float :=
  (1 / (2 * 0x1.921fb54442d18p+1 * C * fc
        * PrimFloat.sqrt (m * ieee_n Q m)))%float.

Definition ieee_synthesize (fc Q C m : float) : ComponentValues float :=
  {| C1 := C;
     C2 := (ieee_n Q m * C)%float;
     R1 := (m * ieee_R fc Q C m)%float;
     R2 := ieee_R fc Q C m |}.

(** Valid component values to try the statements on. *)
Definition cv_example : ComponentValues R :=
  {| C1 := 1; C2 := 2; R1 := 3; R2 := 4 |}.

(** ** The equations of the text of the notebook *)

(** The transfer function in terms of the cutoff frequency and of the
    quality factor, as the text of the notebook gives it before the first
    cell, for the DC gain [K = 1]:
    [H(f) = 1 / (1 - (f/fc)^2 + (f/(Q fc)) j)]. *)
Definition H_canonical (fc Q f : R) : complex R :=
  Cinv (Complex (1 - (f / fc) ^ 2) (f / (Q * fc))).

(** The squared modulus of the divisor of [H_canonical], as a function of
    the normalised frequency [x = f / fc]. *)
Definition norm2_canonical (Q x : R) : R := (1 - x ^ 2) ^ 2 + (x / Q) ^ 2.

(** The cutoff frequency and the quality factor of the filter with given
    component values, by the equations of the text of the notebook for the
    DC gain [K = 1]:
    [fc = 1 / (2 pi sqrt (R1 R2 C1 C2))] and
    [Q = sqrt (R1 R2 C1 C2) / (R1 C1 + R2 C1)]. *)
Definition cutoff_frequency (cv : ComponentValues R) : R :=
  1 / (2 * PI * sqrt (R1 cv * R2 cv * C1 cv * C2 cv)).

Definition quality_factor (cv : ComponentValues R) : R :=
  sqrt (R1 cv * R2 cv * C1 cv * C2 cv) / (R1 cv * C1 cv + R2 cv * C1 cv).

(** The sign bit of a binary64 number; a NaN has none. *)
Definition SFsign (x : spec_float) : option bool :=
  match x with
  | S754_zero sx => Some sx
  | S754_infinity sx => Some sx
  | S754_finite sx _ _ => Some sx
  | S754_nan => None
  end.

(** ** Printing: ["%2.2f" % x] on a Python float *)

(** The integer nearest to a rational number, a tie going to the even
    neighbour: the rounding of the digits in the conversions of a float to
    a string (dtoa, mode 3). *)
Definition round_half_even (q : Q) : Z :=
  let fl := (Qnum q / Zpos (Qden q))%Z in
  let r := (Qnum q mod Zpos (Qden q))%Z in
  match (2 * r ?= Zpos (Qden q))%Z with
  | Lt => fl
  | Gt => (fl + 1)%Z
  | Eq => if Z.even fl then fl else (fl + 1)%Z
  end.

(** The absolute value of a finite binary64 number in hundredths, rounded:
    the digits that [%.2f] shows. *)
Definition hundredths (x : float) : option Z :=
  match float_to_Q x with
  | Some v => Some (round_half_even (Qabs v * 100))
  | None => None
  end.

(** The decimal digits of a natural number. *)
Definition decimal (k : Z) : string :=
  NilZero.string_of_uint (N.to_uint (Z.to_N k)).

Definition two_digits (k : Z) : string :=
  if (k <? 10)%Z then ("0" ++ decimal k)%string else decimal k.

(** The sign that is shown is the sign bit, also of a zero and of a number
    that is rounded to zero. *)
Definition sign_text (x : float) : string :=
  match SFsign (Prim2SF x) with
  | Some true => "-"%string
  | _ => ""%string
  end.

(** [PyOS_double_to_string(x, 'f', 2, 0, NULL)] *)
Definition double_to_string_f2 (x : float) : string :=
  match hundredths x with
  | Some k =>
      (sign_text x ++ decimal (k / 100) ++ "." ++ two_digits (k mod 100))%string
  | None =>
      if PrimFloat.is_nan x then "nan"%string
      else (sign_text x ++ "inf")%string
  end.

(** The field width of a conversion: a shorter text gets spaces on its
    left. *)
Fixpoint spaces (k : nat) : string :=
  match k with
  | O => ""%string
  | S k' => String " "%char (spaces k')
  end.

Definition pad_left (width : nat) (t : string) : string :=
  (spaces (width - String.length t) ++ t)%string.

(** ["%2.2f" % x] *)
Definition format_2_2f (x : float) : string :=
  pad_left 2 (double_to_string_f2 x).

(** [fmt % x] for a format whose only conversion is [%2.2f], as in the four
    [print] calls. *)
Fixpoint py_percent (fmt : string) (x : float) : string :=
  match fmt with
  | String "%"%char
      (String "2"%char (String "."%char (String "2"%char
         (String "f"%char rest)))) =>
      (format_2_2f x ++ rest)%string
  | String c rest => String c (py_percent rest x)
  | EmptyString => EmptyString
  end.

(** The lines that the first cell writes to the standard output. *)
Definition printed (cv : ComponentValues float) : list string :=
  map (fun line => py_percent (fst line) (snd line)) (report cv).

Definition cell1_output (fc Q C m : float) : result (list string) :=
  cv <- synthesize fc Q C m ;;
  Ok (printed cv).

(** The run of the first cell with the parameters that the notebook sets. *)
Definition notebook_output : result (list string) :=
  Q <- Q_line ;;
  cell1_output (of_Z 10) Q C_notebook (of_Z 1).

(** ** The data model on binary64 *)

(** A positive real of the data model as a binary64 number: above zero and
    finite. *)
Definition positive_float (x : float) : bool :=
  PrimFloat.ltb 0 x && PrimFloat.is_finite x.

Definition valid_float (cv : ComponentValues float) : bool :=
  positive_float (C1 cv) && positive_float (C2 cv) &&
  positive_float (R1 cv) && positive_float (R2 cv).

(** Positive component values whose product [R1*C1] overflows. *)
Definition cv_overflow : ComponentValues float :=
  {| C1 := 0x1p+600%float; C2 := 1%float;
     R1 := 0x1p+600%float; R2 := 1%float |}.

(** Positive component values whose products [R1*C1] and [R2*C1] underflow
    to zero, while [R1*C1*R2*C2] is 2^-1000. *)
Definition cv_underflow : ComponentValues float :=
  {| C1 := 0x1p-600%float; C2 := 0x1p+600%float;
     R1 := 0x1p-500%float; R2 := 0x1p-500%float |}.

(** ** [cmath.phase] on binary64 *)

Definition sign_bit (x : float) : bool :=
  match SFsign (Prim2SF x) with
  | Some true => true
  | _ => false
  end.

(** C copysign on a number that is not a NaN. *)
Definition copysign (v y : float) : float :=
  if sign_bit y then PrimFloat.opp (PrimFloat.abs v) else PrimFloat.abs v.

(** c_atan2 of cmathmodule.c, which [cmath.phase] calls, on the arguments
    that it answers by itself: a NaN part, an infinite part or a zero
    imaginary part.  On every other argument ([None]) it calls atan2 of the
    C library. *)
Definition c_atan2_special (z : complex float) : option float :=
  if PrimFloat.is_nan (real z) || PrimFloat.is_nan (imag z) then
    Some PrimFloat.nan
  else if PrimFloat.is_infinity (imag z) then
    if PrimFloat.is_infinity (real z) then
      if sign_bit (real z)
      then Some (copysign (0.75 * 0x1.921fb54442d18p+1)%float (imag z))
      else Some (copysign (0.25 * 0x1.921fb54442d18p+1)%float (imag z))
    else Some (copysign (0.5 * 0x1.921fb54442d18p+1)%float (imag z))
  else if PrimFloat.is_infinity (real z) || PrimFloat.eqb (imag z) 0%float
  then
    if sign_bit (real z)
    then Some (copysign 0x1.921fb54442d18p+1%float (imag z))
    else Some (copysign 0%float (imag z))
  else None.

(** [A] on binary64, as far as [cmath.phase] answers without the C library:
    [None] where it calls atan2. *)
Definition A_special (cv : ComponentValues float) (f : float)
  : result (option float) :=
  k <- py_div (of_Z 180) pi ;;
  h <- H cv f ;;
  Ok (option_map (fun t => PrimFloat.mul k t) (c_atan2_special h)).

(** * Properties *)

(** ** The Python operations on real numbers *)

(** The comparisons of [RealArith] decide the order of the reals. *)
Ltac case_real :=
  unfold Reqb, Rltb, Rleb;
  match goal with
  | |- context [if ?d then _ else _] => destruct d
  end;
  first [reflexivity | contradiction | lra].

Lemma Reqb_true (x y : R) : x = y -> Reqb x y = true.
Proof. intros E. case_real. Qed.

Lemma Reqb_false (x y : R) : x <> y -> Reqb x y = false.
Proof. intros E. case_real. Qed.

Lemma Rltb_true (x y : R) : x < y -> Rltb x y = true.
Proof. intros E. case_real. Qed.

Lemma Rltb_false (x y : R) : y <= x -> Rltb x y = false.
Proof. intros E. case_real. Qed.

Lemma Rleb_true (x y : R) : x <= y -> Rleb x y = true.
Proof. intros E. case_real. Qed.

Lemma Rleb_false (x y : R) : y < x -> Rleb x y = false.
Proof. intros E. case_real. Qed.

Lemma py_div_real (x y : R) : y <> 0 -> py_div x y = Ok (x / y).
Proof.
  intros E. unfold py_div. cbn. rewrite Reqb_false by exact E. reflexivity.
Qed.

Lemma py_div_zero (x y : R) : y = 0 -> py_div x y = Raise ZeroDivisionError.
Proof.
  intros E. unfold py_div. cbn. rewrite Reqb_true by exact E. reflexivity.
Qed.

Lemma py_pow2_real (x : R) : py_pow2 x = Ok (x * x).
Proof. reflexivity. Qed.

Lemma math_sqrt_real (x : R) : 0 <= x -> math_sqrt x = Ok (sqrt x).
Proof.
  intros E. unfold math_sqrt. cbn. rewrite Rltb_false by exact E. reflexivity.
Qed.

Lemma n_real (Q m : R) : m <> 0 -> n Q m = Ok (spec_n Q m).
Proof.
  intros Hm. unfold n. rewrite py_pow2_real. cbn [bind].
  rewrite py_div_real by exact Hm. unfold spec_n. cbn. f_equal. field.
  exact Hm.
Qed.

(** ** First cell in exact arithmetic *)

Lemma mn_square (Q m : R) : m <> 0 -> m * spec_n Q m = (Q * (m + 1)) ^ 2.
Proof. intros Hm. unfold spec_n. field. exact Hm. Qed.

Lemma sqrt_mn (Q m : R) :
  m <> 0 -> sqrt (m * spec_n Q m) = Rabs (Q * (m + 1)).
Proof.
  intros Hm. rewrite mn_square by exact Hm.
  replace ((Q * (m + 1)) ^ 2) with (Rsqr (Q * (m + 1)))
    by (unfold Rsqr; ring).
  apply sqrt_Rsqr_abs.
Qed.

Lemma R_real (fc Q C m : R) :
  m <> 0 -> divisor fc Q C m <> 0 ->
  R_ fc m C (spec_n Q m) = Ok (spec_R fc Q C m).
Proof.
  intros Hm Hd. unfold R_.
  rewrite math_sqrt_real.
  - cbn [bind]. apply py_div_real. exact Hd.
  - cbn. rewrite mn_square by exact Hm. apply pow2_ge_0.
Qed.

Lemma R_zero (fc Q C m : R) :
  m <> 0 -> divisor fc Q C m = 0 ->
  R_ fc m C (spec_n Q m) = Raise ZeroDivisionError.
Proof.
  intros Hm Hd. unfold R_.
  rewrite math_sqrt_real.
  - cbn [bind]. apply py_div_zero. exact Hd.
  - cbn. rewrite mn_square by exact Hm. apply pow2_ge_0.
Qed.

Lemma divisor_zero_iff (fc Q C m : R) :
  m <> 0 ->
  divisor fc Q C m = 0 <-> (fc = 0 \/ Q = 0 \/ C = 0 \/ m = -1).
Proof.
  intros Hm. unfold divisor. rewrite sqrt_mn by exact Hm.
  pose proof PI_RGT_0 as Hpi.
  split.
  - intros E.
    destruct (Req_dec_T fc 0) as [|Hfc]; [tauto|].
    destruct (Req_dec_T C 0) as [|HC]; [tauto|].
    destruct (Req_dec_T Q 0) as [|HQ]; [tauto|].
    right. right. right.
    apply Rmult_integral in E. destruct E as [E|E].
    + exfalso. apply Rmult_integral in E. destruct E as [E|E]; [|contradiction].
      apply Rmult_integral in E. destruct E as [E|E]; [|contradiction]. lra.
    + assert (E' : Q * (m + 1) = 0).
      { destruct (Req_dec_T (Q * (m + 1)) 0) as [|N]; [assumption|].
        apply Rabs_no_R0 in N. contradiction. }
      apply Rmult_integral in E'. destruct E' as [E'|E']; [contradiction | lra].
  - intros [E|[E|[E|E]]]; subst.
    + ring.
    + rewrite Rmult_0_l, Rabs_R0. ring.
    + ring.
    + replace (Q * (-1 + 1)) with 0 by ring. rewrite Rabs_R0. ring.
Qed.

(** In exact arithmetic the cell stops exactly when one of the divisions
    meets a zero divisor, and otherwise assigns the values of the formulas. *)
Lemma synthesize_real (fc Q C m : R) :
  synthesize fc Q C m =
    if Req_dec_T m 0 then Raise ZeroDivisionError
    else if Req_dec_T (divisor fc Q C m) 0 then Raise ZeroDivisionError
    else Ok (spec_synthesize fc Q C m).
Proof.
  unfold synthesize.
  destruct (Req_dec_T m 0) as [Hm|Hm].
  - unfold n. rewrite py_pow2_real. cbn [bind].
    rewrite py_div_zero by exact Hm. reflexivity.
  - rewrite n_real by exact Hm. cbn [bind].
    destruct (Req_dec_T (divisor fc Q C m) 0) as [Hd|Hd].
    + rewrite R_zero by assumption. reflexivity.
    + rewrite R_real by assumption. reflexivity.
Qed.

Lemma divisor_pos (fc Q C m : R) :
  0 < fc -> 0 < Q -> 0 < C -> 0 < m -> 0 < divisor fc Q C m.
Proof.
  intros Hfc HQ HC Hm. unfold divisor.
  rewrite sqrt_mn by lra.
  pose proof PI_RGT_0 as Hpi.
  assert (0 < Q * (m + 1)) by (apply Rmult_lt_0_compat; lra).
  rewrite Rabs_pos_eq by lra.
  assert (0 < 2 * PI) by lra.
  do 3 (apply Rmult_lt_0_compat; [|assumption]). assumption.
Qed.

Lemma synthesize_positive (fc Q C m : R) :
  0 < fc -> 0 < Q -> 0 < C -> 0 < m ->
  synthesize fc Q C m = Ok (spec_synthesize fc Q C m).
Proof.
  intros Hfc HQ HC Hm. rewrite synthesize_real.
  destruct (Req_dec_T m 0) as [E|_]; [lra|].
  pose proof (divisor_pos fc Q C m Hfc HQ HC Hm) as Hd.
  destruct (Req_dec_T (divisor fc Q C m) 0) as [E|_]; [lra|].
  reflexivity.
Qed.

(** ** Second cell in exact arithmetic *)

Lemma complex_eq (a b c d : R) : a = c -> b = d -> Complex a b = Complex c d.
Proof. intros -> ->. reflexivity. Qed.

Lemma s_real (f : R) : s f = spec_s f.
Proof.
  unfold s, spec_s, c_prod, to_complex, c_j. cbn. apply complex_eq; ring.
Qed.

Lemma c_pow2_real (z : complex R) : c_pow2 z = Ok (Cmul z z).
Proof.
  unfold c_pow2, Cmul, c_prod, c_1. cbn. f_equal. apply complex_eq; ring.
Qed.

Lemma Cnorm2_pos (z : complex R) : z <> Complex 0 0 -> 0 < Cnorm2 z.
Proof.
  destruct z as [x y]. unfold Cnorm2. cbn. intros N.
  destruct (Req_dec_T x 0) as [Ex|Nx].
  - destruct (Req_dec_T y 0) as [Ey|Ny]; [subst; contradiction|]. nra.
  - nra.
Qed.

(** The scaled division of _Py_c_quot is the division of the field. *)
Lemma c_quot_real (a b : complex R) :
  b <> Complex 0 0 -> c_quot a b = Ok (Cmul a (Cinv b)).
Proof.
  intros N. pose proof (Cnorm2_pos _ N) as P.
  destruct a as [ar ai], b as [br bi]. unfold Cnorm2 in P. cbn in P.
  unfold c_quot, Cmul, Cinv, Cnorm2. cbn.
  set (abr := if Rltb br 0 then - br else br).
  set (abi := if Rltb bi 0 then - bi else bi).
  assert (Habr : abr = Rabs br).
  { unfold abr, Rltb, Rabs. destruct (Rlt_dec br 0), (Rcase_abs br); lra. }
  assert (Habi : abi = Rabs bi).
  { unfold abi, Rltb, Rabs. destruct (Rlt_dec bi 0), (Rcase_abs bi); lra. }
  unfold Rleb. destruct (Rle_dec abi abr) as [L|L].
  - assert (Nbr : br <> 0).
    { intros E. subst br. rewrite Habr, Habi, Rabs_R0 in L.
      pose proof (Rabs_pos bi). assert (Rabs bi = 0) by lra.
      destruct (Req_dec_T bi 0) as [E|E]; [subst; nra|].
      apply Rabs_no_R0 in E. contradiction. }
    rewrite Reqb_false.
    + f_equal. apply complex_eq; field; split; try assumption; nra.
    + rewrite Habr. apply Rabs_no_R0. exact Nbr.
  - destruct (Rle_dec abr abi) as [L'|L']; [|lra].
    assert (Nbi : bi <> 0).
    { intros E. subst bi. rewrite Habr, Habi, Rabs_R0 in L.
      pose proof (Rabs_pos br). lra. }
    f_equal. apply complex_eq; field; split; try assumption; nra.
Qed.

Lemma c_quot_zero (a : complex R) :
  c_quot a (Complex 0 0) = Raise ZeroDivisionError.
Proof.
  unfold c_quot. cbn. rewrite (Rltb_false 0 0) by lra.
  rewrite Rleb_true by lra. rewrite Reqb_true by reflexivity. reflexivity.
Qed.

Lemma denominator_real (cv : ComponentValues R) (f : R) :
  denominator cv f = Ok (spec_denominator cv f).
Proof.
  unfold denominator. rewrite c_pow2_real. cbn [bind]. rewrite s_real.
  f_equal.
  unfold spec_denominator, Cadd, Cmul, Cre, c_sum, c_prod, to_complex, spec_s.
  cbn. apply complex_eq; ring.
Qed.

Lemma spec_denominator_parts (cv : ComponentValues R) (f : R) :
  spec_denominator cv f =
    Complex (1 - (2 * PI * f) ^ 2 * (R1 cv * C1 cv * R2 cv * C2 cv))
            (2 * PI * f * (R1 cv * C1 cv + R2 cv * C1 cv)).
Proof.
  unfold spec_denominator, Cadd, Cmul, Cre, spec_s. cbn.
  apply complex_eq; ring.
Qed.

Lemma spec_denominator_nonzero (cv : ComponentValues R) (f : R) :
  valid cv -> spec_denominator cv f <> Complex 0 0.
Proof.
  intros (HC1 & HC2 & HR1 & HR2). rewrite spec_denominator_parts.
  intros E. injection E as Ere Eim.
  pose proof PI_RGT_0 as Hpi.
  assert (Hb : 0 < R1 cv * C1 cv + R2 cv * C1 cv) by nra.
  apply Rmult_integral in Eim. destruct Eim as [Ew|Eb]; [|lra].
  rewrite Ew in Ere. lra.
Qed.

Lemma H_real (cv : ComponentValues R) (f : R) :
  spec_denominator cv f <> Complex 0 0 -> H cv f = Ok (spec_H cv f).
Proof.
  intros N. unfold H. rewrite denominator_real. cbn [bind].
  rewrite c_quot_real by exact N. f_equal.
  unfold spec_H, Cmul, Cinv, to_complex. cbn. apply complex_eq; ring.
Qed.

Lemma H_zero (cv : ComponentValues R) (f : R) :
  spec_denominator cv f = Complex 0 0 -> H cv f = Raise ZeroDivisionError.
Proof.
  intros E. unfold H. rewrite denominator_real. cbn [bind]. rewrite E.
  apply c_quot_zero.
Qed.

Lemma Cnorm2_Cinv (z : complex R) :
  z <> Complex 0 0 -> Cnorm2 (Cinv z) = / Cnorm2 z.
Proof.
  intros N. pose proof (Cnorm2_pos _ N) as P.
  destruct z as [x y]. unfold Cinv, Cnorm2 in *. cbn in *. field. lra.
Qed.

Lemma Cmod_Cinv_pos (z : complex R) : z <> Complex 0 0 -> 0 < Cmod (Cinv z).
Proof.
  intros N. unfold Cmod. apply sqrt_lt_R0. rewrite Cnorm2_Cinv by exact N.
  apply Rinv_0_lt_compat, Cnorm2_pos, N.
Qed.

Lemma complex_abs_real (z : complex R) : complex_abs z = Ok (Cmod z).
Proof. reflexivity. Qed.

Lemma math_log10_real (x : R) : 0 < x -> math_log10 x = Ok (ln x / ln 10).
Proof.
  intros P. unfold math_log10. cbn. rewrite Rleb_false by exact P. reflexivity.
Qed.

Lemma math_log10_domain (x : R) : x <= 0 -> math_log10 x = Raise ValueError.
Proof.
  intros P. unfold math_log10. cbn. rewrite Rleb_true by exact P. reflexivity.
Qed.

Lemma M_real (cv : ComponentValues R) (f : R) :
  spec_denominator cv f <> Complex 0 0 ->
  M cv f = Ok (spec_magnitude_db cv f).
Proof.
  intros N. unfold M. rewrite H_real by exact N. cbn [bind].
  rewrite complex_abs_real. cbn [bind].
  rewrite math_log10_real by (apply Cmod_Cinv_pos; exact N).
  reflexivity.
Qed.

Lemma A_real (cv : ComponentValues R) (f : R) :
  spec_denominator cv f <> Complex 0 0 ->
  A cv f = Ok (spec_phase_degrees cv f).
Proof.
  intros N. unfold A. rewrite py_div_real by apply PI_neq0. cbn [bind].
  rewrite H_real by exact N. reflexivity.
Qed.

(** An exception raised inside [H] leaves [M] and [A] as it is. *)
Lemma M_A_raise (cv : ComponentValues R) (f : R) (e : exn) :
  H cv f = Raise e -> M cv f = Raise e /\ A cv f = Raise e.
Proof.
  intros E. unfold M, A. rewrite py_div_real by apply PI_neq0.
  rewrite E. split; reflexivity.
Qed.

(** *** The principal value of the angle *)

Lemma Ratan2_bound (y x : R) : - PI < Ratan2 y x <= PI.
Proof.
  pose proof PI_RGT_0 as Hpi. unfold Ratan2.
  destruct (Rlt_dec 0 x) as [Px|Px].
  - pose proof (atan_bound (y / x)). lra.
  - destruct (Rlt_dec x 0) as [Nx|Nx].
    + pose proof (atan_bound (y / x)) as B.
      destruct (Rle_dec 0 y) as [Py|Py].
      * assert (y / x <= 0).
        { unfold Rdiv. pose proof (Rinv_lt_0_compat x Nx). nra. }
        assert (atan (y / x) <= 0).
        { rewrite <- atan_0. destruct (Req_dec_T (y / x) 0) as [->|]; [lra|].
          apply Rlt_le, atan_increasing. lra. }
        lra.
      * assert (0 < y / x).
        { unfold Rdiv. pose proof (Rinv_lt_0_compat x Nx). nra. }
        assert (0 < atan (y / x)).
        { rewrite <- atan_0. apply atan_increasing. assumption. }
        lra.
    + destruct (Rlt_dec 0 y); [lra|]. destruct (Rlt_dec y 0); lra.
Qed.

Lemma degrees_bound (t : R) : - PI < t <= PI -> -180 < 180 / PI * t <= 180.
Proof.
  intros [L U]. pose proof PI_RGT_0 as Hpi.
  assert (K : 0 < 180 / PI) by (apply Rdiv_lt_0_compat; lra).
  assert (E : 180 / PI * PI = 180) by (field; lra).
  split.
  - replace (-180) with (180 / PI * (- PI)) by (field; lra).
    apply Rmult_lt_compat_l; assumption.
  - rewrite <- E at 2. apply Rmult_le_compat_l; lra.
Qed.

(** *** Sweeps *)

Lemma sweep_returns {T B : Type} (g : T -> result B) (v : T -> B)
  (fs : list T) :
  (forall f, In f fs -> g f = Ok (v f)) ->
  sweep g fs = Ok (map v fs).
Proof.
  induction fs as [|f rest IH]; intros Hg; [reflexivity|].
  cbn [sweep map]. rewrite (Hg f) by (left; reflexivity). cbn [bind].
  rewrite IH by (intros f' Hin; apply Hg; right; exact Hin). reflexivity.
Qed.

Lemma sweep_raises {T B : Type} (g : T -> result B) (fs : list T) (f : T) :
  In f fs -> raises (g f) -> raises (sweep g fs).
Proof.
  induction fs as [|f0 rest IH]; intros Hin Hr; [contradiction|].
  cbn [sweep]. destruct Hin as [->|Hin].
  - destruct Hr as [e ->]. exists e. reflexivity.
  - destruct (g f0) as [y|e]; cbn [bind]; [|exists e; reflexivity].
    destruct (IH Hin Hr) as [e ->]. exists e. reflexivity.
Qed.

Lemma cv_example_valid : valid cv_example.
Proof. unfold valid, cv_example. cbn. lra. Qed.

(** ** The component synthesizer *)

(** The formulas of the first cell, in exact arithmetic. *)
Lemma synthesize_formulas_real (fc Q C m : R) :
  0 < fc -> 0 < Q -> 0 < C -> 0 < m ->
  let n0 := (Q * (m + 1)) ^ 2 / m in
  let R0 := 1 / (2 * PI * C * fc * sqrt (m * n0)) in
  n Q m = Ok n0 /\
  R_ fc m C n0 = Ok R0 /\
  synthesize fc Q C m = Ok {| C1 := C; C2 := n0 * C; R1 := m * R0; R2 := R0 |}.
Proof.
  intros Hfc HQ HC Hm n0 R0.
  pose proof (divisor_pos fc Q C m Hfc HQ HC Hm) as Hd.
  split; [|split].
  - apply n_real. lra.
  - apply R_real; lra.
  - apply synthesize_positive; assumption.
Qed.




Lemma spec_n_pos (Q m : R) : 0 < Q -> 0 < m -> 0 < spec_n Q m.
Proof.
  intros HQ Hm. unfold spec_n. apply Rdiv_lt_0_compat; [|exact Hm].
  apply pow_lt. apply Rmult_lt_0_compat; lra.
Qed.

Lemma spec_R_pos (fc Q C m : R) :
  0 < fc -> 0 < Q -> 0 < C -> 0 < m -> 0 < spec_R fc Q C m.
Proof.
  intros Hfc HQ HC Hm. unfold spec_R.
  apply Rdiv_lt_0_compat; [lra|].
  apply (divisor_pos fc Q C m Hfc HQ HC Hm).
Qed.

Lemma spec_synthesize_valid (fc Q C m : R) :
  0 < fc -> 0 < Q -> 0 < C -> 0 < m -> valid (spec_synthesize fc Q C m).
Proof.
  intros Hfc HQ HC Hm.
  pose proof (spec_n_pos Q m HQ Hm) as Hn.
  pose proof (spec_R_pos fc Q C m Hfc HQ HC Hm) as HR.
  unfold valid. cbn. repeat split; try assumption.
  - apply Rmult_lt_0_compat; assumption.
  - apply Rmult_lt_0_compat; assumption.
Qed.

(** The invariants of the component values, in exact arithmetic. *)
Lemma component_invariants_real (fc Q C m : R) :
  0 < fc -> 0 < Q -> 0 < C -> 0 < m ->
  exists cv,
    synthesize fc Q C m = Ok cv /\
    (0 < C1 cv /\ 0 < C2 cv /\ 0 < R1 cv /\ 0 < R2 cv) /\
    C2 cv = (Q * (m + 1)) ^ 2 / m * C1 cv /\
    R1 cv = m * R2 cv /\
    (m = 1 -> R1 cv = R2 cv /\ C2 cv = (2 * Q) ^ 2 * C1 cv).
Proof.
  intros Hfc HQ HC Hm. exists (spec_synthesize fc Q C m).
  pose proof (spec_n_pos Q m HQ Hm) as Hn.
  pose proof (spec_R_pos fc Q C m Hfc HQ HC Hm) as HR.
  split; [apply synthesize_positive; assumption|].
  cbn. repeat split; try assumption.
  - apply Rmult_lt_0_compat; assumption.
  - apply Rmult_lt_0_compat; assumption.
  - subst m. ring.
  - subst m. unfold spec_n. field.
Qed.

(** C6: in exact arithmetic, for every valid FilterSpec the component
    values that the first cell produces are positive and satisfy
    C2 = n C1 and R1 = m R2 with n = (Q (m + 1))^2 / m; for m = 1 this
    gives R1 = R2 and C2 = (2 Q)^2 C1.  In binary64 the values are not
    positive for every positive input: there are positive finite doubles
    at which the cell returns the resistances R1 = R2 = 0. *)
Theorem C6_component_invariants :
  (forall fc Q C m : R,
     0 < fc -> 0 < Q -> 0 < C -> 0 < m ->
     exists cv,
       synthesize fc Q C m = Ok cv /\
       (0 < C1 cv /\ 0 < C2 cv /\ 0 < R1 cv /\ 0 < R2 cv) /\
       C2 cv = (Q * (m + 1)) ^ 2 / m * C1 cv /\
       R1 cv = m * R2 cv /\
       (m = 1 -> R1 cv = R2 cv /\ C2 cv = (2 * Q) ^ 2 * C1 cv)) /\
  (exists (fc Q C m : float) (cv : ComponentValues float),
     positive_float fc = true /\ positive_float Q = true /\
     positive_float C = true /\ positive_float m = true /\
     synthesize fc Q C m = Ok cv /\
     R1 cv = 0%float /\ R2 cv = 0%float).
Proof.
  split; [exact component_invariants_real|].
  exists 0x1p+1000%float, 1%float, 0x1p+100%float, 1%float.
  eexists. repeat split; vm_compute; reflexivity.
Qed.

Lemma C6_witness :
  (0 < 10 /\ 0 < 1 /\ 0 < 3 /\ 0 < 1) /\
  exists cv,
    synthesize 10 1 3 1 = Ok cv /\
    (0 < C1 cv /\ 0 < C2 cv /\ 0 < R1 cv /\ 0 < R2 cv) /\
    C2 cv = (1 * (1 + 1)) ^ 2 / 1 * C1 cv /\
    R1 cv = 1 * R2 cv /\
    (1 = 1 -> R1 cv = R2 cv /\ C2 cv = (2 * 1) ^ 2 * C1 cv).
Proof.
  split; [lra|].
  apply (proj1 C6_component_invariants 10 1 3 1); lra.
Defined.

(** In binary64, for fc = 2^1000 and C = 2^100 the divisor of the line of
    [R] overflows to infinity and the resistances are 0, not positive. *)
Lemma C6_counterexample :
  positive_float 0x1p+1000%float = true /\
  positive_float 0x1p+100%float = true /\
  (2 * 0x1.921fb54442d18p+1 * 0x1p+100 * 0x1p+1000)%float = infinity /\
  synthesize 0x1p+1000%float 1%float 0x1p+100%float 1%float =
    Ok {| C1 := 0x1p+100%float; C2 := 0x1p+102%float;
          R1 := 0%float; R2 := 0%float |} /\
  positive_float 0%float = false.
Proof. repeat split; vm_compute; reflexivity. Qed.

Lemma spec_R_scale (fc Q C m k : R) :
  0 < fc -> 0 < Q -> 0 < C -> 0 < m -> 0 < k ->
  spec_R (k * fc) Q C m = spec_R fc Q C m / k.
Proof.
  intros Hfc HQ HC Hm Hk.
  pose proof (divisor_pos fc Q C m Hfc HQ HC Hm) as Hd. unfold divisor in Hd.
  unfold spec_R. field.
  split; [intros E; rewrite E in Hd; lra|].
  pose proof PI_neq0. repeat split; lra.
Qed.

(** The scaling law, in exact arithmetic. *)
Lemma scaling_law_real (fc Q C m k : R) :
  0 < fc -> 0 < Q -> 0 < C -> 0 < m -> 0 < k ->
  exists cv cvk,
    synthesize fc Q C m = Ok cv /\
    synthesize (k * fc) Q C m = Ok cvk /\
    R1 cvk = R1 cv / k /\ R2 cvk = R2 cv / k /\
    C1 cvk = C1 cv /\ C2 cvk = C2 cv.
Proof.
  intros Hfc HQ HC Hm Hk.
  exists (spec_synthesize fc Q C m), (spec_synthesize (k * fc) Q C m).
  assert (Hkfc : 0 < k * fc) by (apply Rmult_lt_0_compat; assumption).
  split; [apply synthesize_positive; assumption|].
  split; [apply synthesize_positive; assumption|].
  cbn. rewrite (spec_R_scale fc Q C m k Hfc HQ HC Hm Hk).
  repeat split. field. lra.
Qed.

(** C7: in exact arithmetic, scaling the cutoff frequency by k > 0 divides
    both resistances by k and leaves both capacitances as they are.  In
    binary64 the law does not hold as an equality: there are positive
    finite doubles at which the resistance of the scaled design differs
    from the quotient, and others at which k fc underflows to zero and the
    scaled design raises ZeroDivisionError. *)
Theorem C7_scaling_law :
  (forall fc Q C m k : R,
     0 < fc -> 0 < Q -> 0 < C -> 0 < m -> 0 < k ->
     exists cv cvk,
       synthesize fc Q C m = Ok cv /\
       synthesize (k * fc) Q C m = Ok cvk /\
       R1 cvk = R1 cv / k /\ R2 cvk = R2 cv / k /\
       C1 cvk = C1 cv /\ C2 cvk = C2 cv) /\
  (exists (fc Q C m k : float) (cv cvk : ComponentValues float),
     positive_float fc = true /\ positive_float Q = true /\
     positive_float C = true /\ positive_float m = true /\
     positive_float k = true /\
     synthesize fc Q C m = Ok cv /\
     synthesize (k * fc)%float Q C m = Ok cvk /\
     PrimFloat.eqb (R2 cvk) (R2 cv / k)%float = false) /\
  (exists (fc Q C m k : float) (cv : ComponentValues float),
     positive_float fc = true /\ positive_float Q = true /\
     positive_float C = true /\ positive_float m = true /\
     positive_float k = true /\
     synthesize fc Q C m = Ok cv /\
     synthesize (k * fc)%float Q C m = Raise ZeroDivisionError).
Proof.
  split; [exact scaling_law_real|]. split.
  - exists 10%float, 1%float, 3%float, 2%float, 5%float.
    do 2 eexists. repeat split; vm_compute; reflexivity.
  - exists 0x1p-1000%float, 1%float, 1%float, 1%float, 0x1p-100%float.
    eexists. repeat split; vm_compute; reflexivity.
Qed.

Lemma C7_witness :
  (0 < 10 /\ 0 < 1 /\ 0 < 3 /\ 0 < 2 /\ 0 < 5) /\
  exists cv cvk,
    synthesize 10 1 3 2 = Ok cv /\
    synthesize (5 * 10) 1 3 2 = Ok cvk /\
    R1 cvk = R1 cv / 5 /\ R2 cvk = R2 cv / 5 /\
    C1 cvk = C1 cv /\ C2 cvk = C2 cv.
Proof.
  split; [lra|].
  apply (proj1 C7_scaling_law 10 1 3 2 5); lra.
Defined.

(** In binary64, for fc = 10, Q = 1, C = 3, m = 2 and k = 5 the resistance
    R2 of the design for k fc = 50 is one unit in the last place below
    R2 / 5; and for fc = 2^-1000 and k = 2^-100 the product k fc is zero. *)
Lemma C7_counterexample :
  ((5 * 10)%float = 50%float /\
   synthesize 10%float 1%float 3%float 2%float =
     Ok {| C1 := 3%float; C2 := 0x1.bp+3%float;
           R1 := 0x1.cf9286ea1d339p-9%float;
           R2 := 0x1.cf9286ea1d339p-10%float |} /\
   synthesize 50%float 1%float 3%float 2%float =
     Ok {| C1 := 3%float; C2 := 0x1.bp+3%float;
           R1 := 0x1.72db9f21b0f6p-11%float;
           R2 := 0x1.72db9f21b0f6p-12%float |} /\
   (0x1.cf9286ea1d339p-10 / 5)%float = 0x1.72db9f21b0f61p-12%float) /\
  ((0x1p-100 * 0x1p-1000)%float = 0%float /\
   returns (synthesize 0x1p-1000%float 1%float 1%float 1%float) /\
   synthesize 0%float 1%float 1%float 1%float = Raise ZeroDivisionError).
Proof.
  split; [repeat split; vm_compute; reflexivity|].
  split; [vm_compute; reflexivity|]. split; [|vm_compute; reflexivity].
  eexists. vm_compute. reflexivity.
Qed.

(** [Ratan2 y x] is the argument of [x + i y]: the point is at that angle
    on the circle of radius [sqrt (x^2 + y^2)]. *)
Lemma sqrt_one_plus_sqr (x y : R) :
  x <> 0 -> sqrt (1 + (y / x)²) = sqrt (x * x + y * y) / Rabs x.
Proof.
  intros Nx. assert (Pa : 0 < Rabs x) by (apply Rabs_pos_lt; exact Nx).
  replace (x * x + y * y) with ((1 + (y / x)²) * x²)
    by (unfold Rsqr; field; exact Nx).
  rewrite sqrt_mult_alt by (pose proof (Rle_0_sqr (y / x)); lra).
  rewrite sqrt_Rsqr_abs. field. lra.
Qed.

Lemma Ratan2_polar (y x : R) :
  Complex x y <> Complex 0 0 ->
  x = sqrt (x * x + y * y) * cos (Ratan2 y x) /\
  y = sqrt (x * x + y * y) * sin (Ratan2 y x).
Proof.
  intros N. pose proof (Cnorm2_pos _ N) as P. unfold Cnorm2 in P. cbn in P.
  pose proof (sqrt_lt_R0 _ P) as Pr. set (r := sqrt (x * x + y * y)) in *.
  unfold Ratan2.
  destruct (Rlt_dec 0 x) as [Px|Px].
  - rewrite cos_atan, sin_atan, sqrt_one_plus_sqr by lra. fold r.
    rewrite Rabs_pos_eq by lra. split; field; lra.
  - destruct (Rlt_dec x 0) as [Nx|Nx].
    + assert (Ea : Rabs x = - x) by (apply Rabs_left; exact Nx).
      destruct (Rle_dec 0 y) as [Py|Py].
      * rewrite neg_cos, neg_sin, cos_atan, sin_atan, sqrt_one_plus_sqr by lra.
        fold r. rewrite Ea. split; field; lra.
      * rewrite cos_minus, sin_minus, cos_PI, sin_PI.
        rewrite cos_atan, sin_atan, sqrt_one_plus_sqr by lra.
        fold r. rewrite Ea. split; field; lra.
    + assert (Ex : x = 0) by lra. subst x.
      assert (Er : r = Rabs y).
      { unfold r. replace (0 * 0 + y * y) with (Rsqr y) by (unfold Rsqr; ring).
        apply sqrt_Rsqr_abs. }
      destruct (Rlt_dec 0 y) as [Py|Py].
      * rewrite cos_PI2, sin_PI2, Er, Rabs_pos_eq by lra. split; ring.
      * destruct (Rlt_dec y 0) as [Ny|Ny].
        -- rewrite cos_neg, sin_neg, cos_PI2, sin_PI2, Er, Rabs_left by lra.
           split; ring.
        -- exfalso. apply N. f_equal. lra.
Qed.

Lemma Cmod_pos_nonzero (z : complex R) :
  0 < Cmod z -> Complex (real z) (imag z) <> Complex 0 0.
Proof.
  intros P E. injection E as E1 E2. unfold Cmod, Cnorm2 in P.
  rewrite E1, E2 in P. replace (0 * 0 + 0 * 0) with 0 in P by ring.
  rewrite sqrt_0 in P. lra.
Qed.

(** ** The transfer function *)

(** Component values at which the divisor vanishes. *)
Lemma degenerate_denominator :
  spec_denominator cv_degenerate (/ (2 * PI)) = Complex 0 0.
Proof.
  rewrite spec_denominator_parts. cbn.
  pose proof PI_neq0. apply complex_eq; field; assumption.
Qed.

(** The gain in exact arithmetic, where the divisor is not zero. *)
Lemma transfer_function_real (cv : ComponentValues R) (f : R) :
  s f = Complex 0 (2 * PI * f) /\
  spec_H cv f =
    Cinv (Complex (1 - (2 * PI * f) ^ 2 * (R1 cv * C1 cv * R2 cv * C2 cv))
                  (2 * PI * f * (R1 cv * C1 cv + R2 cv * C1 cv))) /\
  (spec_denominator cv f <> Complex 0 0 -> H cv f = Ok (spec_H cv f)) /\
  (valid cv -> H cv f = Ok (spec_H cv f)).
Proof.
  split; [|split; [|split]].
  - apply s_real.
  - unfold spec_H. rewrite spec_denominator_parts. reflexivity.
  - apply H_real.
  - intros V. apply H_real, spec_denominator_nonzero, V.
Qed.

(** C2: in exact arithmetic, s = 2 pi f i has no real part and the second
    cell returns the complex gain
    H(f) = 1 / (s^2 R1 C1 R2 C2 + s (R1 C1 + R2 C1) + 1) for every
    frequency f and component values at which this divisor is not zero,
    and so for all valid component values; where the divisor is zero, H
    raises ZeroDivisionError, and such component values and frequencies
    exist.  In binary64, H also raises OverflowError at positive finite
    component values and frequencies, where s(f)**2 overflows. *)
Theorem C2_transfer_function :
  (forall (cv : ComponentValues R) (f : R),
     s f = Complex 0 (2 * PI * f) /\
     spec_H cv f =
       Cinv (Complex (1 - (2 * PI * f) ^ 2 * (R1 cv * C1 cv * R2 cv * C2 cv))
                     (2 * PI * f * (R1 cv * C1 cv + R2 cv * C1 cv))) /\
     (spec_denominator cv f <> Complex 0 0 -> H cv f = Ok (spec_H cv f)) /\
     (valid cv -> H cv f = Ok (spec_H cv f)) /\
     (spec_denominator cv f = Complex 0 0 ->
      H cv f = Raise ZeroDivisionError)) /\
  (exists (cv : ComponentValues R) (f : R),
     H cv f = Raise ZeroDivisionError) /\
  (exists (cv : ComponentValues float) (f : float),
     valid_float cv = true /\ positive_float f = true /\
     H cv f = Raise OverflowError).
Proof.
  split; [|split].
  - intros cv f.
    destruct (transfer_function_real cv f) as (Es & EH & Hn & Hv).
    repeat (split; [assumption|]). apply H_zero.
  - exists cv_degenerate, (/ (2 * PI)).
    apply H_zero, degenerate_denominator.
  - exists cv_notebook, 0x1p+700%float.
    repeat split; vm_compute; reflexivity.
Qed.

Lemma C2_witness :
  valid cv_example /\
  H cv_example 5 =
    Ok (spec_H cv_example 5).
Proof.
  pose proof cv_example_valid as V.
  split; [exact V|].
  exact (proj1 (proj2 (proj2 (proj2
    (proj1 C2_transfer_function cv_example 5)))) V).
Defined.

(** [H] does not return for every frequency and component values: at a
    zero divisor it raises ZeroDivisionError, in exact arithmetic and in
    binary64, and with the component values of the notebook it raises
    OverflowError at the Python float 2^700, where s(f)**2 overflows. *)
Lemma C2_counterexample :
  H cv_degenerate (/ (2 * PI)) = Raise ZeroDivisionError /\
  H cv_degenerate 0x1.45f306dc9c883p-3%float = Raise ZeroDivisionError /\
  (valid_float cv_notebook = true /\
   positive_float 0x1p+700%float = true /\
   c_pow2 (s 0x1p+700%float) = Raise OverflowError /\
   H cv_notebook 0x1p+700%float = Raise OverflowError).
Proof.
  split; [apply H_zero, degenerate_denominator|].
  repeat split; vm_compute; reflexivity.
Qed.

(** The divisor of [H] for valid component values, in exact arithmetic. *)
Lemma denominator_nonzero_real (cv : ComponentValues R) (f : R) :
  valid cv ->
  exists d,
    denominator cv f = Ok d /\
    imag d = 2 * PI * f * (R1 cv * C1 cv + R2 cv * C1 cv) /\
    (f <> 0 -> imag d <> 0) /\
    (f = 0 -> d = Complex 1 0) /\
    d <> Complex 0 0 /\
    returns (H cv f).
Proof.
  intros V. exists (spec_denominator cv f).
  pose proof (spec_denominator_nonzero cv f V) as N.
  split; [apply denominator_real|].
  rewrite spec_denominator_parts in *. cbn [imag].
  destruct V as (HC1 & HC2 & HR1 & HR2).
  pose proof PI_RGT_0 as Hpi.
  assert (Hb : 0 < R1 cv * C1 cv + R2 cv * C1 cv) by nra.
  repeat split.
  - intros Nf E. apply Rmult_integral in E. destruct E as [E|E]; [|lra].
    apply Rmult_integral in E. destruct E as [E|E]; [lra | contradiction].
  - intros ->. apply complex_eq; ring.
  - exact N.
  - exists (spec_H cv f). apply H_real. rewrite spec_denominator_parts. exact N.
Qed.

(** C10: in exact arithmetic, for every frequency f and positive R1, R2,
    C1, C2 the divisor s^2 R1 C1 R2 C2 + s (R1 C1 + R2 C1) + 1 of the
    transfer function is a nonzero complex number: its imaginary part
    2 pi f (R1 C1 + R2 C1) is nonzero for f <> 0 and it is 1 at f = 0; so
    the division in H never meets a zero divisor.  In binary64 the branch
    of the zero divisor can be reached: there are positive finite
    component values and a positive finite frequency at which the divisor
    is exactly zero and H raises ZeroDivisionError. *)
Theorem C10_denominator_nonzero :
  (forall (cv : ComponentValues R) (f : R),
     valid cv ->
     exists d,
       denominator cv f = Ok d /\
       imag d = 2 * PI * f * (R1 cv * C1 cv + R2 cv * C1 cv) /\
       (f <> 0 -> imag d <> 0) /\
       (f = 0 -> d = Complex 1 0) /\
       d <> Complex 0 0 /\
       returns (H cv f)) /\
  (exists (cv : ComponentValues float) (f : float),
     valid_float cv = true /\ positive_float f = true /\
     denominator cv f = Ok (Complex 0%float 0%float) /\
     H cv f = Raise ZeroDivisionError).
Proof.
  split; [exact denominator_nonzero_real|].
  exists cv_underflow, 0x1.45f306dc9c883p+497%float.
  repeat split; vm_compute; reflexivity.
Qed.

Lemma C10_witness :
  valid cv_example /\
  exists d,
    denominator cv_example 5 = Ok d /\
    imag d = 2 * PI * 5 * (3 * 1 + 4 * 1) /\
    (5 <> 0 -> imag d <> 0) /\
    (5 = 0 -> d = Complex 1 0) /\
    d <> Complex 0 0 /\
    returns (H cv_example 5).
Proof.
  pose proof cv_example_valid as V.
  split; [exact V|].
  apply (proj1 C10_denominator_nonzero cv_example 5 V).
Defined.

(** In binary64, for R1 = R2 = 2^-500, C1 = 2^-600 and C2 = 2^600 the
    products R1*C1 and R2*C1 underflow to zero, and at the Python float
    nearest to 2^500 / (2 pi) the power s(f)**2 is (-2^1000, 0): the term of
    s(f)**2 is (-1, 0), the term of s(f) is (0, 0), and the divisor is zero. *)
Lemma C10_counterexample :
  valid_float cv_underflow = true /\
  positive_float 0x1.45f306dc9c883p+497%float = true /\
  (R1 cv_underflow * C1 cv_underflow)%float = 0%float /\
  (R2 cv_underflow * C1 cv_underflow)%float = 0%float /\
  c_pow2 (s 0x1.45f306dc9c883p+497%float) =
    Ok (Complex (-0x1p+1000)%float 0%float) /\
  denominator cv_underflow 0x1.45f306dc9c883p+497%float =
    Ok (Complex 0%float 0%float) /\
  H cv_underflow 0x1.45f306dc9c883p+497%float = Raise ZeroDivisionError.
Proof. repeat split; vm_compute; reflexivity. Qed.

(** The phase in degrees, in exact arithmetic. *)
Lemma phase_degrees_real (cv : ComponentValues R) (f : R) (fs : list R) :
  valid cv ->
  exists h,
    H cv f = Ok h /\
    A cv f = Ok (180 / PI * Ratan2 (imag h) (real h)) /\
    real h = Cmod h * cos (Ratan2 (imag h) (real h)) /\
    imag h = Cmod h * sin (Ratan2 (imag h) (real h)) /\
    -180 < 180 / PI * Ratan2 (imag h) (real h) <= 180 /\
    sweep (A cv) fs =
      Ok (map (fun f' =>
                 180 / PI * Ratan2 (imag (spec_H cv f')) (real (spec_H cv f')))
              fs).
Proof.
  intros V. exists (spec_H cv f).
  pose proof (spec_denominator_nonzero cv f V) as N.
  split; [apply H_real; exact N|].
  split; [apply A_real; exact N|].
  assert (Nh : Complex (real (spec_H cv f)) (imag (spec_H cv f))
               <> Complex 0 0).
  { apply Cmod_pos_nonzero. unfold spec_H. apply Cmod_Cinv_pos, N. }
  destruct (Ratan2_polar _ _ Nh) as [Px Py].
  split; [exact Px|]. split; [exact Py|].
  split; [apply degrees_bound, Ratan2_bound|].
  apply sweep_returns. intros f' _. apply A_real, spec_denominator_nonzero, V.
Qed.

(** C9: in exact arithmetic, for every frequency f and valid component
    values, A returns (180 / pi) arg (H(f)), the principal value in the
    interval from -180 (excluded) to 180 (included); a sweep holds the
    value of each of its frequencies as it is, without unwrapping.  In
    binary64 the interval is closed at -180 too: there are positive finite
    component values and a positive finite frequency at which A returns
    exactly -180, the imaginary part of the gain being -0.0 and its real
    part negative. *)
Theorem C9_phase_degrees :
  (forall (cv : ComponentValues R) (f : R) (fs : list R),
     valid cv ->
     exists h,
       H cv f = Ok h /\
       A cv f = Ok (180 / PI * Ratan2 (imag h) (real h)) /\
       real h = Cmod h * cos (Ratan2 (imag h) (real h)) /\
       imag h = Cmod h * sin (Ratan2 (imag h) (real h)) /\
       -180 < 180 / PI * Ratan2 (imag h) (real h) <= 180 /\
       sweep (A cv) fs =
         Ok (map (fun f' =>
                    180 / PI *
                    Ratan2 (imag (spec_H cv f')) (real (spec_H cv f')))
                 fs)) /\
  (exists (cv : ComponentValues float) (f : float),
     valid_float cv = true /\ positive_float f = true /\
     A_special cv f = Ok (Some (-180)%float)).
Proof.
  split; [exact phase_degrees_real|].
  exists cv_notebook, 0x1p+366%float.
  repeat split; vm_compute; reflexivity.
Qed.

Lemma C9_witness :
  valid cv_example /\
  exists h,
    H cv_example 5 = Ok h /\
    A cv_example 5 =
      Ok (180 / PI * Ratan2 (imag h) (real h)) /\
    real h = Cmod h * cos (Ratan2 (imag h) (real h)) /\
    imag h = Cmod h * sin (Ratan2 (imag h) (real h)) /\
    -180 < 180 / PI * Ratan2 (imag h) (real h) <= 180 /\
    sweep (A cv_example) [5; 6] =
      Ok (map (fun f' =>
                 180 / PI *
                 Ratan2 (imag (spec_H cv_example f'))
                        (real (spec_H cv_example f')))
              [5; 6]).
Proof.
  pose proof cv_example_valid as V.
  split; [exact V|].
  apply (proj1 C9_phase_degrees cv_example 5 [5; 6] V).
Defined.

(** In binary64, with the component values of the notebook and the Python
    float f = 2^366, the imaginary part of the gain underflows to -0.0 and
    the real part is negative; [cmath.phase] answers -pi, and
    180/pi * -pi is -180, which is not above -180. *)
Lemma C9_counterexample :
  valid_float cv_notebook = true /\
  positive_float 0x1p+366%float = true /\
  H cv_notebook 0x1p+366%float =
    Ok (Complex (-0x1.9000000000001p-726)%float (-0)%float) /\
  c_atan2_special (Complex (-0x1.9000000000001p-726)%float (-0)%float) =
    Some (-0x1.921fb54442d18p+1)%float /\
  A_special cv_notebook 0x1p+366%float = Ok (Some (-180)%float) /\
  PrimFloat.ltb (-180)%float (-180)%float = false.
Proof. repeat split; vm_compute; reflexivity. Qed.

(** ** Errors *)

(** In exact arithmetic the first cell either stops with ZeroDivisionError,
    and then prints nothing, or returns the values of the formulas. *)
Lemma synthesize_cases (fc Q C m : R) :
  ((fc = 0 \/ Q = 0 \/ C = 0 \/ m = 0 \/ m = -1) /\
   synthesize fc Q C m = Raise ZeroDivisionError /\
   cell1 fc Q C m = Raise ZeroDivisionError) \/
  ((fc <> 0 /\ Q <> 0 /\ C <> 0 /\ m <> 0 /\ m <> -1) /\
   synthesize fc Q C m = Ok (spec_synthesize fc Q C m) /\
   cell1 fc Q C m = Ok (report (spec_synthesize fc Q C m))).
Proof.
  unfold cell1. rewrite synthesize_real.
  destruct (Req_dec_T m 0) as [Em|Nm].
  - left. cbn [bind]. tauto.
  - pose proof (divisor_zero_iff fc Q C m Nm) as Hd.
    destruct (Req_dec_T (divisor fc Q C m) 0) as [Ed|Nd].
    + left. cbn [bind]. tauto.
    + right. cbn [bind]. repeat split; try reflexivity; try assumption.
      all: intros E; apply Nd, Hd; tauto.
Qed.

(** C3, as the code has it: the first cell validates nothing and has no
    InvalidParameterError.  In exact arithmetic it stops with Python's
    ZeroDivisionError, before any component value is assigned or printed,
    when fc, Q, C or m is zero or m is -1, and for every other input,
    negative ones included, it returns the component values of the
    formulas.  In binary64 too a negative input and a NaN are not rejected:
    there are inputs with a negative fc at which the cell returns negative
    resistances, and inputs with a NaN at which it returns NaN resistances;
    and a zero input does not always end in ZeroDivisionError: there are
    inputs with fc = 0 at which the cell returns NaN resistances, and
    others at which it raises OverflowError. *)
Theorem C3_no_validation :
  (forall fc Q C m : R,
     (fc = 0 \/ Q = 0 \/ C = 0 \/ m = 0 \/ m = -1 ->
        synthesize fc Q C m = Raise ZeroDivisionError /\
        cell1 fc Q C m = Raise ZeroDivisionError) /\
     (fc <> 0 /\ Q <> 0 /\ C <> 0 /\ m <> 0 /\ m <> -1 ->
        synthesize fc Q C m = Ok (spec_synthesize fc Q C m))) /\
  (exists (fc Q C m : float) (cv : ComponentValues float),
     PrimFloat.ltb fc 0%float = true /\
     synthesize fc Q C m = Ok cv /\
     PrimFloat.ltb (R1 cv) 0%float = true /\
     PrimFloat.ltb (R2 cv) 0%float = true) /\
  (exists (fc Q C m : float) (cv : ComponentValues float),
     PrimFloat.is_nan fc = true /\
     synthesize fc Q C m = Ok cv /\
     PrimFloat.is_nan (R1 cv) = true /\ PrimFloat.is_nan (R2 cv) = true) /\
  (exists (fc Q C m : float) (cv : ComponentValues float),
     fc = 0%float /\
     synthesize fc Q C m = Ok cv /\
     PrimFloat.is_nan (R1 cv) = true /\ PrimFloat.is_nan (R2 cv) = true /\
     returns (cell1_output fc Q C m)) /\
  (exists fc Q C m : float,
     fc = 0%float /\ synthesize fc Q C m = Raise OverflowError).
Proof.
  split; [|split; [|split; [|split]]].
  - intros fc Q C m.
    destruct (synthesize_cases fc Q C m) as [(Z & E1 & E2)|(N & E1 & E2)].
    + split; [intros _; split; assumption|].
      intros (N1 & N2 & N3 & N4 & N5). exfalso. tauto.
    + split; [|intros _; exact E1].
      intros Z. exfalso. tauto.
  - exists (-10)%float, Q_notebook, C_notebook, 1%float. eexists.
    repeat split; vm_compute; reflexivity.
  - exists PrimFloat.nan, Q_notebook, C_notebook, 1%float. eexists.
    repeat split; vm_compute; reflexivity.
  - exists 0%float, PrimFloat.nan, 1%float, 1%float. eexists.
    split; [reflexivity|]. split; [vm_compute; reflexivity|].
    split; [vm_compute; reflexivity|]. split; [vm_compute; reflexivity|].
    eexists. vm_compute. reflexivity.
  - exists 0%float, 0x1p+600%float, 1%float, 1%float.
    split; [reflexivity | vm_compute; reflexivity].
Qed.

Lemma C3_witness :
  (0 = 0 \/ 1 = 0 \/ 3 = 0 \/ 2 = 0 \/ 2 = -1) /\
  (synthesize 0 1 3 2 = Raise ZeroDivisionError /\
   cell1 0 1 3 2 = Raise ZeroDivisionError) /\
  (-10 <> 0 /\ 1 <> 0 /\ 3 <> 0 /\ 2 <> 0 /\ 2 <> -1) /\
  synthesize (-10) 1 3 2 = Ok (spec_synthesize (-10) 1 3 2).
Proof.
  assert (Z : 0 = 0 \/ 1 = 0 \/ 3 = 0 \/ 2 = 0 \/ 2 = -1)
    by (left; reflexivity).
  assert (N : -10 <> 0 /\ 1 <> 0 /\ 3 <> 0 /\ 2 <> 0 /\ 2 <> -1)
    by (repeat split; lra).
  split; [exact Z|].
  split; [exact (proj1 (proj1 C3_no_validation 0 1 3 2) Z)|].
  split; [exact N|].
  exact (proj2 (proj1 C3_no_validation (-10) 1 3 2) N).
Defined.

(** A negative cutoff frequency and a NaN are taken as they come: the cell
    returns resistances that are negative, or NaN.  With fc = 0 and
    Q = NaN the cell returns NaN resistances and prints its four lines,
    and with fc = 0 and Q = 2^600 it raises OverflowError in the line of
    [n], before the division by zero of the line of [R]. *)
Lemma C3_counterexample :
  (exists cv, synthesize (-10) 1 1 1 = Ok cv /\ R1 cv < 0 /\ R2 cv < 0) /\
  synthesize (-10)%float Q_notebook C_notebook 1%float =
    Ok {| C1 := C_notebook;
          C2 := 0x1.6255b5942109bp-21%float;
          R1 := (-0x1.0a6dc812282fbp+15)%float;
          R2 := (-0x1.0a6dc812282fbp+15)%float |} /\
  synthesize PrimFloat.nan Q_notebook C_notebook 1%float =
    Ok {| C1 := C_notebook;
          C2 := 0x1.6255b5942109bp-21%float;
          R1 := PrimFloat.nan;
          R2 := PrimFloat.nan |} /\
  synthesize 0%float PrimFloat.nan 1%float 1%float =
    Ok {| C1 := 1%float; C2 := PrimFloat.nan;
          R1 := PrimFloat.nan; R2 := PrimFloat.nan |} /\
  cell1_output 0%float PrimFloat.nan 1%float 1%float =
    Ok [ " C1 = 1000000000.00 nF"%string; " C2 = nan nF"%string;
         " R1 = nan Ohm"%string; " R2 = nan Ohm"%string ] /\
  synthesize 0%float 0x1p+600%float 1%float 1%float = Raise OverflowError.
Proof.
  split; [|repeat split; vm_compute; reflexivity].
  destruct (synthesize_cases (-10) 1 1 1) as [(Z & _)|(_ & E & _)].
  - exfalso. lra.
  - exists (spec_synthesize (-10) 1 1 1). split; [exact E|].
    assert (Hd : divisor (-10) 1 1 1 < 0).
    { unfold divisor. rewrite sqrt_mn by lra.
      rewrite Rabs_pos_eq by lra. pose proof PI_RGT_0. nra. }
    unfold divisor in Hd. cbn. unfold spec_R.
    assert (1 / (2 * PI * 1 * -10 * sqrt (1 * spec_n 1 1)) < 0).
    { unfold Rdiv. rewrite Rmult_1_l. apply Rinv_lt_0_compat. exact Hd. }
    lra.
Qed.

Lemma M_returns (cv : ComponentValues R) (f : R) :
  valid cv -> M cv f = Ok (spec_magnitude_db cv f).
Proof. intros V. apply M_real, spec_denominator_nonzero, V. Qed.

(** C4, as the code has it: there is no DegenerateResponseError, and [M]
    catches nothing.  Where the divisor of [H] is zero, [H] and [M] stop
    with ZeroDivisionError; [math.log10] answers a zero with ValueError, not
    with minus infinity; an exception raised at one frequency ends
    [list(map(g, freqs))] as a whole; and for valid component values [M]
    returns, at every frequency of a sweep. *)
Theorem C4_degenerate_response (cv : ComponentValues R) (f : R) :
  (spec_denominator cv f = Complex 0 0 ->
     denominator cv f = Ok (Complex 0 0) /\
     H cv f = Raise ZeroDivisionError /\
     M cv f = Raise ZeroDivisionError) /\
  math_log10 0 = Raise ValueError /\
  (forall (B : Type) (g : R -> result B) (fs : list R),
     In f fs -> raises (g f) -> raises (sweep g fs)) /\
  (valid cv ->
     M cv f = Ok (spec_magnitude_db cv f) /\
     forall fs : list R,
       sweep (M cv) fs = Ok (map (spec_magnitude_db cv) fs)).
Proof.
  split; [|split; [|split]].
  - intros E. split; [rewrite denominator_real, E; reflexivity|].
    pose proof (H_zero cv f E) as EH.
    split; [exact EH | apply (M_A_raise cv f _ EH)].
  - apply math_log10_domain. lra.
  - intros B g fs. apply sweep_raises.
  - intros V. split; [apply M_returns, V|].
    intros fs. apply sweep_returns. intros f' _. apply M_returns, V.
Qed.

Lemma C4_witness :
  spec_denominator cv_degenerate (/ (2 * PI)) = Complex 0 0 /\
  (denominator cv_degenerate (/ (2 * PI)) = Ok (Complex 0 0) /\
   H cv_degenerate (/ (2 * PI)) = Raise ZeroDivisionError /\
   M cv_degenerate (/ (2 * PI)) = Raise ZeroDivisionError) /\
  valid cv_example /\
  M cv_example 5 =
    Ok (spec_magnitude_db cv_example 5).
Proof.
  pose proof cv_example_valid as V.
  split; [exact degenerate_denominator|].
  split; [exact (proj1 (C4_degenerate_response cv_degenerate (/ (2 * PI)))
                       degenerate_denominator)|].
  split; [exact V|].
  exact (proj1 (proj2 (proj2 (proj2
           (C4_degenerate_response cv_example 5))) V)).
Defined.

(** Where the divisor is zero the sample is an uncaught ZeroDivisionError:
    in exact arithmetic at the angular frequency 1, and in binary64 at the
    frequency nearest to 1 / (2 pi). *)
Lemma C4_counterexample :
  (denominator cv_degenerate (/ (2 * PI)) = Ok (Complex 0 0) /\
   M cv_degenerate (/ (2 * PI)) = Raise ZeroDivisionError) /\
  (denominator cv_degenerate 0x1.45f306dc9c883p-3%float =
     Ok (Complex 0%float 0%float) /\
   H cv_degenerate 0x1.45f306dc9c883p-3%float = Raise ZeroDivisionError).
Proof.
  split.
  - split.
    + rewrite denominator_real, degenerate_denominator. reflexivity.
    + apply (M_A_raise cv_degenerate (/ (2 * PI))).
      apply H_zero, degenerate_denominator.
  - split; vm_compute; reflexivity.
Qed.

(** ** The gain at low frequencies *)

Lemma Cnorm2_denominator (cv : ComponentValues R) (f : R) :
  Cnorm2 (spec_denominator cv f) = norm2_denominator cv f.
Proof.
  rewrite spec_denominator_parts. unfold Cnorm2, norm2_denominator. cbn. ring.
Qed.

Lemma spec_magnitude_db_norm2 (cv : ComponentValues R) (f : R) :
  spec_denominator cv f <> Complex 0 0 ->
  spec_magnitude_db cv f =
    20 * (ln (sqrt (/ norm2_denominator cv f)) / ln 10).
Proof.
  intros N. unfold spec_magnitude_db, Cmod, spec_H.
  rewrite Cnorm2_Cinv by exact N. rewrite Cnorm2_denominator. reflexivity.
Qed.

Lemma spec_H_dc (cv : ComponentValues R) : spec_H cv 0 = Complex 1 0.
Proof.
  unfold spec_H. rewrite spec_denominator_parts. unfold Cinv, Cnorm2. cbn.
  apply complex_eq; field.
Qed.

Lemma spec_magnitude_db_dc (cv : ComponentValues R) :
  spec_magnitude_db cv 0 = 0.
Proof.
  unfold spec_magnitude_db. rewrite spec_H_dc. unfold Cmod, Cnorm2. cbn.
  replace (1 * 1 + 0 * 0) with 1 by ring. rewrite sqrt_1, ln_1.
  unfold Rdiv. ring.
Qed.

Lemma continuity_pt_ln (x : R) : 0 < x -> continuity_pt ln x.
Proof.
  intros P. apply derivable_continuous_pt.
  exists (/ x). apply derivable_pt_lim_ln. exact P.
Qed.

Lemma norm2_denominator_continuous (cv : ComponentValues R) (x : R) :
  continuity_pt (norm2_denominator cv) x.
Proof.
  unfold norm2_denominator. reg.
Qed.

Lemma magnitude_continuous_dc (cv : ComponentValues R) :
  continuity_pt
    (fun f => 20 * (ln (sqrt (/ norm2_denominator cv f)) / ln 10)) 0.
Proof.
  assert (N0 : norm2_denominator cv 0 = 1) by (unfold norm2_denominator; ring).
  assert (Ki : continuity_pt (/ norm2_denominator cv)%F 0).
  { apply continuity_pt_inv; [apply norm2_denominator_continuous|].
    rewrite N0. lra. }
  assert (Ks : continuity_pt (comp sqrt (/ norm2_denominator cv)%F) 0).
  { apply continuity_pt_comp; [exact Ki|].
    apply continuity_pt_sqrt. unfold inv_fct. rewrite N0. lra. }
  assert (Kl : continuity_pt (comp ln (comp sqrt (/ norm2_denominator cv)%F)) 0).
  { apply continuity_pt_comp; [exact Ks|].
    apply continuity_pt_ln. unfold comp, inv_fct. rewrite N0, Rinv_1, sqrt_1. lra. }
  apply (continuity_pt_scal _ (20 / ln 10)) in Kl.
  unfold continuity_pt, continue_in, limit1_in, limit_in in *.
  intros eps He. destruct (Kl eps He) as (alp & Ha & Hx).
  exists alp. split; [exact Ha|]. intros x Hd. specialize (Hx x Hd).
  unfold mult_real_fct, comp, inv_fct in Hx. cbn in *.
  replace (20 * (ln (sqrt (/ norm2_denominator cv x)) / ln 10))
    with (20 / ln 10 * ln (sqrt (/ norm2_denominator cv x)))
    by (unfold Rdiv; ring).
  replace (20 * (ln (sqrt (/ norm2_denominator cv 0)) / ln 10))
    with (20 / ln 10 * ln (sqrt (/ norm2_denominator cv 0)))
    by (unfold Rdiv; ring).
  exact Hx.
Qed.

(** The gain at and near frequency zero, in exact arithmetic. *)
Lemma dc_gain_real (cv : ComponentValues R) :
  valid cv ->
  H cv 0 = Ok (Complex 1 0) /\
  M cv 0 = Ok 0 /\
  forall eps : R, 0 < eps ->
    exists delta : R, 0 < delta /\
      forall f : R, Rabs f < delta ->
        exists v : R, M cv f = Ok v /\ Rabs v < eps.
Proof.
  intros V. split; [|split].
  - rewrite <- (spec_H_dc cv). apply H_real, spec_denominator_nonzero, V.
  - rewrite M_returns by exact V. f_equal. apply spec_magnitude_db_dc.
  - intros eps He.
    destruct (magnitude_continuous_dc cv eps He) as (delta & Hdelta & Hlim).
    exists delta. split; [exact Hdelta|]. intros f Hf.
    exists (spec_magnitude_db cv f). split; [apply M_returns, V|].
    destruct (Req_dec_T f 0) as [->|Nf].
    + rewrite spec_magnitude_db_dc, Rabs_R0. exact He.
    + assert (Hd : D_x no_cond 0 f /\ R_dist f 0 < delta).
      { split; [split; [exact I | auto]|].
        unfold R_dist. rewrite Rminus_0_r. exact Hf. }
      specialize (Hlim f Hd). cbn in Hlim. unfold R_dist in Hlim.
      rewrite <- !spec_magnitude_db_norm2 in Hlim
        by (apply spec_denominator_nonzero, V).
      rewrite spec_magnitude_db_dc, Rminus_0_r in Hlim. exact Hlim.
Qed.




(** ** The run of the notebook *)

Lemma PI_bounds : 3.141592 < PI < 3.141593.
Proof.
  pose proof (PI_2_3_7_ineq 3) as [L U].
  unfold sum_f_R0, tg_alt, PI_2_3_7_tg, Ratan_seq in L, U.
  cbn [Nat.mul Nat.add pow INR] in L, U. split; lra.
Qed.

Lemma sqrt2_bounds : 1.414213 < sqrt 2 < 1.414214.
Proof.
  split.
  - rewrite <- (sqrt_square 1.414213) by lra. apply sqrt_lt_1_alt. lra.
  - rewrite <- (sqrt_square 1.414214) by lra. apply sqrt_lt_1_alt. lra.
Qed.

Lemma sqrt2_sqr : sqrt 2 * sqrt 2 = 2.
Proof. apply sqrt_sqrt. lra. Qed.

Lemma Q_butterworth_pos : 0 < Q_butterworth.
Proof.
  unfold Q_butterworth. apply Rdiv_lt_0_compat; [lra|].
  pose proof sqrt2_bounds. lra.
Qed.

Lemma spec_n_butterworth : spec_n Q_butterworth 1 = 2.
Proof.
  pose proof sqrt2_bounds as B. unfold spec_n, Q_butterworth.
  replace ((1 / sqrt 2 * (1 + 1)) ^ 2 / 1) with (4 / (sqrt 2 * sqrt 2))
    by (field; lra).
  rewrite sqrt2_sqr. field.
Qed.

Lemma spec_R_notebook :
  spec_R 10 Q_butterworth C_330nF 1 = 1 / (2 * PI * C_330nF * 10 * sqrt 2).
Proof.
  unfold spec_R. rewrite spec_n_butterworth.
  replace (1 * 2) with 2 by ring. reflexivity.
Qed.

Lemma spec_R_notebook_bounds :
  34102.79 <= spec_R 10 Q_butterworth C_330nF 1 <= 34102.99.
Proof.
  rewrite spec_R_notebook. unfold C_330nF.
  pose proof PI_bounds as [Pl Pu]. pose proof sqrt2_bounds as [Sl Su].
  set (d := 2 * PI * 330e-9 * 10 * sqrt 2).
  assert (Dl : 0.00002932300 < d) by (unfold d; nra).
  assert (Du : d < 0.00002932305) by (unfold d; nra).
  assert (E : 1 / d * d = 1) by (field; lra).
  split; nra.
Qed.

(** At the cutoff frequency the squared modulus of the divisor is 2. *)
Lemma norm2_denominator_notebook :
  norm2_denominator (spec_synthesize 10 Q_butterworth C_330nF 1) 10 = 2.
Proof.
  unfold norm2_denominator, spec_synthesize. cbn [C1 C2 R1 R2].
  rewrite spec_n_butterworth, spec_R_notebook. unfold C_330nF.
  pose proof PI_bounds as [Pl Pu]. pose proof sqrt2_bounds as [Sl Su].
  set (u := 2 * PI * 10 * (1 / (2 * PI * 330e-9 * 10 * sqrt 2)) * 330e-9).
  assert (Eu : u = / sqrt 2) by (unfold u; field; lra).
  assert (Eu2 : u * u = / 2).
  { rewrite Eu. rewrite <- Rinv_mult. rewrite sqrt2_sqr. reflexivity. }
  replace ((1 - (2 * PI * 10) ^ 2 *
              (1 * (1 / (2 * PI * 330e-9 * 10 * sqrt 2)) * 330e-9 *
               (1 / (2 * PI * 330e-9 * 10 * sqrt 2)) * (2 * 330e-9))) ^ 2 +
           (2 * PI * 10 *
              (1 * (1 / (2 * PI * 330e-9 * 10 * sqrt 2)) * 330e-9 +
               1 / (2 * PI * 330e-9 * 10 * sqrt 2) * 330e-9)) ^ 2)
    with ((1 - 2 * (u * u)) ^ 2 + 4 * (u * u))
    by (unfold u; field; lra).
  rewrite Eu2. field.
Qed.

Lemma ln_sqrt_inv (x : R) : 0 < x -> ln (sqrt (/ x)) = - ln x / 2.
Proof.
  intros P. assert (Pi : 0 < / x) by (apply Rinv_0_lt_compat; exact P).
  pose proof (sqrt_lt_R0 _ Pi) as Ps.
  assert (E : ln (sqrt (/ x)) + ln (sqrt (/ x)) = - ln x).
  { rewrite <- ln_mult by assumption. rewrite sqrt_sqrt by lra.
    apply ln_Rinv. exact P. }
  lra.
Qed.

Lemma ln2_ln10 : 0.3005 * ln 10 <= ln 2 <= 0.3015 * ln 10.
Proof.
  assert (L : ln (10 ^ 601) < ln (2 ^ 2000)).
  { apply ln_increasing; [apply pow_lt; lra|].
    rewrite !pow_IZR. apply IZR_lt. vm_compute. reflexivity. }
  assert (U : ln (2 ^ 2000) < ln (10 ^ 603)).
  { apply ln_increasing; [apply pow_lt; lra|].
    rewrite !pow_IZR. apply IZR_lt. vm_compute. reflexivity. }
  rewrite !ln_pow in L, U by lra.
  replace (INR 601) with 601 in L by (rewrite INR_IZR_INZ; reflexivity).
  replace (INR 603) with 603 in U by (rewrite INR_IZR_INZ; reflexivity).
  replace (INR 2000) with 2000 in L, U by (rewrite INR_IZR_INZ; reflexivity).
  lra.
Qed.

Lemma ln10_pos : 0 < ln 10.
Proof. rewrite <- ln_1. apply ln_increasing; lra. Qed.

Lemma magnitude_notebook :
  -3.015 <= spec_magnitude_db (spec_synthesize 10 Q_butterworth C_330nF 1) 10
         <= -3.005.
Proof.
  assert (V : valid (spec_synthesize 10 Q_butterworth C_330nF 1)).
  { apply spec_synthesize_valid; try lra.
    - apply Q_butterworth_pos.
    - unfold C_330nF. lra. }
  rewrite spec_magnitude_db_norm2 by (apply spec_denominator_nonzero, V).
  rewrite norm2_denominator_notebook, ln_sqrt_inv by lra.
  pose proof ln2_ln10 as [L U]. pose proof ln10_pos as P.
  replace (20 * (- ln 2 / 2 / ln 10)) with (- (10 * (ln 2 / ln 10)))
    by (field; lra).
  assert (Lq : 0.3005 <= ln 2 / ln 10).
  { apply (Rmult_le_reg_r (ln 10)); [exact P|].
    replace (ln 2 / ln 10 * ln 10) with (ln 2) by (field; lra). exact L. }
  assert (Uq : ln 2 / ln 10 <= 0.3015).
  { apply (Rmult_le_reg_r (ln 10)); [exact P|].
    replace (ln 2 / ln 10 * ln 10) with (ln 2) by (field; lra). exact U. }
  lra.
Qed.

(** In binary64 the first cell assigns the numbers that the notebook
    stores as its output, [C1 = 330.00 nF], [C2 = 660.00 nF] and
    [R1 = R2 = 34102.89 Ohm] once formatted with two decimals, and at the
    cutoff frequency the gain has the squared modulus 1/2. *)
Lemma notebook_run :
  Q_line = Ok Q_notebook /\
  between (330e-9 - 3e-23) (330e-9 + 3e-23) C_notebook = true /\
  synthesize 10%float Q_notebook C_notebook 1%float = Ok cv_notebook /\
  cell1 10%float Q_notebook C_notebook 1%float =
    Ok [ (" C1 = %2.2f nF"%string, 0x1.4ap+8%float);
         (" C2 = %2.2f nF"%string, 0x1.49fffffffffffp+9%float);
         (" R1 = %2.2f Ohm"%string, 0x1.0a6dc812282fbp+15%float);
         (" R2 = %2.2f Ohm"%string, 0x1.0a6dc812282fbp+15%float) ] /\
  between 329.995 330.005 0x1.4ap+8%float = true /\
  between 659.995 660.005 0x1.49fffffffffffp+9%float = true /\
  between 34102.885 34102.895 0x1.0a6dc812282fbp+15%float = true /\
  H cv_notebook 10%float =
    Ok (Complex 0%float (-0x1.6a09e667f3bcdp-1)%float) /\
  between (1 / 2 - 1e-15) (1 / 2 + 1e-15)
    (0x1.6a09e667f3bcdp-1 * 0x1.6a09e667f3bcdp-1)%float = true.
Proof. repeat split; vm_compute; reflexivity. Qed.

Lemma notebook_real (C : R) : notebook C = synthesize 10 Q_butterworth C 1.
Proof.
  unfold notebook, Q_line. pose proof sqrt2_bounds as B.
  rewrite math_sqrt_real by (cbn; lra). cbn [bind].
  rewrite py_div_real by (cbn; lra). reflexivity.
Qed.

(** C8: for fc = 10 Hz, Q = 1/sqrt(2), C = 330e-9 F and m = 1 the first
    cell yields C1 = 330 nF and C2 = 660 nF within 0.01 nF and
    R1 = R2 = 34102.89 Ohm within 0.1 Ohm, and with these component values
    the magnitude at 10 Hz is -3.01 dB, the half-power point.  The first
    part is the run in exact arithmetic; the second is the run in binary64,
    where the gain at 10 Hz has the squared modulus 1/2 up to 1e-15. *)
Theorem C8_concrete_scenario :
  (exists cv : ComponentValues R,
     notebook 330e-9 = Ok cv /\
     Rabs (C1 cv * 1e9 - 330) <= 0.01 /\
     Rabs (C2 cv * 1e9 - 660) <= 0.01 /\
     Rabs (R1 cv - 34102.89) <= 0.1 /\
     Rabs (R2 cv - 34102.89) <= 0.1 /\
     exists v : R, M cv 10 = Ok v /\ Rabs (v - -3.01) <= 0.005) /\
  (notebook C_notebook = Ok cv_notebook /\
   between (330 - 0.01) (330 + 0.01) (C1 cv_notebook * 1e9)%float = true /\
   between (660 - 0.01) (660 + 0.01) (C2 cv_notebook * 1e9)%float = true /\
   between (34102.89 - 0.1) (34102.89 + 0.1) (R1 cv_notebook) = true /\
   between (34102.89 - 0.1) (34102.89 + 0.1) (R2 cv_notebook) = true /\
   exists h : complex float,
     H cv_notebook 10%float = Ok h /\
     between (1 / 2 - 1e-15) (1 / 2 + 1e-15)
             (real h * real h + imag h * imag h)%float = true).
Proof.
  split.
  2:{ repeat (split; [vm_compute; reflexivity|]).
      exists (Complex 0%float (-0x1.6a09e667f3bcdp-1)%float).
      split; vm_compute; reflexivity. }
  rewrite notebook_real. fold C_330nF.
  set (cv := spec_synthesize 10 Q_butterworth C_330nF 1).
  exists cv.
  pose proof Q_butterworth_pos as HQ.
  assert (HC : 0 < C_330nF) by (unfold C_330nF; lra).
  pose proof spec_R_notebook_bounds as [Rl Ru].
  assert (E1 : C1 cv = 330e-9) by reflexivity.
  assert (E2 : C2 cv = 2 * 330e-9).
  { unfold cv, spec_synthesize. cbn [C2]. rewrite spec_n_butterworth.
    reflexivity. }
  assert (E3 : R1 cv = 1 * spec_R 10 Q_butterworth C_330nF 1) by reflexivity.
  assert (E4 : R2 cv = spec_R 10 Q_butterworth C_330nF 1) by reflexivity.
  split; [apply synthesize_positive; lra|].
  rewrite E1, E2, E3, E4.
  repeat (split; [apply Rabs_le; lra|]).
  exists (spec_magnitude_db cv 10). split.
  - apply M_returns. apply spec_synthesize_valid; lra.
  - pose proof magnitude_notebook as [Ml Mu]. fold cv in Ml, Mu.
    apply Rabs_le. lra.
Qed.

(** ** The first cell in binary64 *)

(** Whenever the model of the cell returns in binary64, it returns the
    formulas rounded operation by operation, the square as in
    [py_pow2]. *)
Lemma synthesize_binary64 (fc Q C m : float) (cv : ComponentValues float) :
  synthesize fc Q C m = Ok cv -> cv = ieee_synthesize fc Q C m.
Proof.
  unfold synthesize, n, R_, py_pow2, py_div, math_sqrt.
  repeat match goal with
         | |- context [if ?b then _ else _] =>
             destruct b; cbn [bind]; [discriminate|]
         end.
  intros E. injection E as <-. reflexivity.
Qed.

(** The two invariants hold bit for bit in binary64, and the capacitances
    do not depend on the cutoff frequency. *)
Lemma invariants_binary64 (fc Q C m : float) (cv : ComponentValues float) :
  synthesize fc Q C m = Ok cv ->
  C2 cv = (ieee_n Q m * C1 cv)%float /\ R1 cv = (m * R2 cv)%float.
Proof.
  intros E. apply synthesize_binary64 in E. subst cv. split; reflexivity.
Qed.

Lemma capacitances_binary64 (fc fc' Q C m : float)
  (cv cv' : ComponentValues float) :
  synthesize fc Q C m = Ok cv -> synthesize fc' Q C m = Ok cv' ->
  C1 cv' = C1 cv /\ C2 cv' = C2 cv.
Proof.
  intros E E'. apply synthesize_binary64 in E, E'. subst cv cv'.
  split; reflexivity.
Qed.

(** The two curves that the second cell plots, in exact arithmetic. *)
Lemma plotted_curves (cv : ComponentValues R) :
  valid cv ->
  List.length freqs = 1000%nat /\
  sweep (M cv) freqs = Ok (map (spec_magnitude_db cv) freqs) /\
  sweep (A cv) freqs = Ok (map (spec_phase_degrees cv) freqs).
Proof.
  intros V. split; [|split].
  - unfold freqs, logspace. rewrite length_map, length_seq. reflexivity.
  - apply sweep_returns. intros f _. apply M_returns, V.
  - apply sweep_returns. intros f _. apply A_real, spec_denominator_nonzero, V.
Qed.

(** ** The filter that the first cell designs *)

Lemma spec_R_closed (fc Q C m : R) :
  0 < fc -> 0 < Q -> 0 < C -> 0 < m ->
  spec_R fc Q C m = 1 / (2 * PI * C * fc * (Q * (m + 1))).
Proof.
  intros Hfc HQ HC Hm. unfold spec_R. rewrite sqrt_mn by lra.
  rewrite Rabs_pos_eq; [reflexivity|].
  apply Rlt_le, Rmult_lt_0_compat; lra.
Qed.

(** The two coefficients of the divisor of [H] for the designed values. *)
Lemma spec_synthesize_coefficients (fc Q C m : R) :
  0 < fc -> 0 < Q -> 0 < C -> 0 < m ->
  let cv := spec_synthesize fc Q C m in
  R1 cv * C1 cv * R2 cv * C2 cv = / (2 * PI * fc) ^ 2 /\
  R1 cv * C1 cv + R2 cv * C1 cv = / (2 * PI * fc * Q).
Proof.
  intros Hfc HQ HC Hm cv. unfold cv, spec_synthesize. cbn [C1 C2 R1 R2].
  rewrite spec_R_closed by assumption. unfold spec_n.
  pose proof PI_RGT_0 as Hpi.
  split; field; repeat split; lra.
Qed.

Lemma spec_denominator_canonical (fc Q C m f : R) :
  0 < fc -> 0 < Q -> 0 < C -> 0 < m ->
  spec_denominator (spec_synthesize fc Q C m) f =
    Complex (1 - (f / fc) ^ 2) (f / (Q * fc)).
Proof.
  intros Hfc HQ HC Hm. rewrite spec_denominator_parts.
  destruct (spec_synthesize_coefficients fc Q C m Hfc HQ HC Hm) as [E2 E1].
  cbv zeta in E2, E1. rewrite E2, E1.
  pose proof PI_RGT_0 as Hpi.
  apply complex_eq; field; repeat split; lra.
Qed.

Lemma spec_H_canonical (fc Q C m f : R) :
  0 < fc -> 0 < Q -> 0 < C -> 0 < m ->
  spec_H (spec_synthesize fc Q C m) f = H_canonical fc Q f.
Proof.
  intros Hfc HQ HC Hm. unfold spec_H, H_canonical.
  rewrite spec_denominator_canonical by assumption. reflexivity.
Qed.
(** X1: for positive fc, Q, C and m, the component values that the first
    cell assigns make the [H] of the second cell the transfer function of
    the text of the notebook with unit DC gain,
    H(f) = 1 / (1 - (f/fc)^2 + (f/(Q fc)) j), at every frequency. *)
Theorem synthesized_transfer_function (fc Q C m : R) :
  0 < fc -> 0 < Q -> 0 < C -> 0 < m ->
  exists cv,
    synthesize fc Q C m = Ok cv /\
    forall f, H cv f = Ok (H_canonical fc Q f).
Proof.
  intros Hfc HQ HC Hm. exists (spec_synthesize fc Q C m).
  split; [apply synthesize_positive; assumption|].
  intros f. rewrite <- (spec_H_canonical fc Q C m f) by assumption.
  apply H_real, spec_denominator_nonzero, spec_synthesize_valid; assumption.
Qed.

Lemma synthesized_transfer_function_witness :
  (0 < 10 /\ 0 < 1 /\ 0 < 3 /\ 0 < 2) /\
  exists cv,
    synthesize 10 1 3 2 = Ok cv /\
    forall f, H cv f = Ok (H_canonical 10 1 f).
Proof.
  split; [lra|].
  apply (synthesized_transfer_function 10 1 3 2); lra.
Defined.

(** X2: the design is the inverse of the equations of the text.  For
    positive fc, Q, C and m, the [n] and [R] of the first cell satisfy
    fc = 1 / (2 pi R C sqrt (m n)) and Q = sqrt (m n) / (m + 1), and the
    component values satisfy fc = 1 / (2 pi sqrt (R1 R2 C1 C2)) and
    Q = sqrt (R1 R2 C1 C2) / (R1 C1 + R2 C1). *)
Theorem design_equations (fc Q C m : R) :
  0 < fc -> 0 < Q -> 0 < C -> 0 < m ->
  exists n0 R0 cv,
    n Q m = Ok n0 /\
    R_ fc m C n0 = Ok R0 /\
    synthesize fc Q C m = Ok cv /\
    1 / (2 * PI * R0 * C * sqrt (m * n0)) = fc /\
    sqrt (m * n0) / (m + 1) = Q /\
    1 / (2 * PI * sqrt (R1 cv * R2 cv * C1 cv * C2 cv)) = fc /\
    sqrt (R1 cv * R2 cv * C1 cv * C2 cv) / (R1 cv * C1 cv + R2 cv * C1 cv) = Q.
Proof.
  intros Hfc HQ HC Hm.
  exists (spec_n Q m), (spec_R fc Q C m), (spec_synthesize fc Q C m).
  pose proof (divisor_pos fc Q C m Hfc HQ HC Hm) as Hd.
  pose proof PI_RGT_0 as Hpi.
  assert (Es : sqrt (m * spec_n Q m) = Q * (m + 1)).
  { rewrite sqrt_mn by lra. apply Rabs_pos_eq.
    apply Rlt_le, Rmult_lt_0_compat; lra. }
  split; [apply n_real; lra|].
  split; [apply R_real; lra|].
  split; [apply synthesize_positive; assumption|].
  split; [|split].
  - rewrite spec_R_closed, Es by assumption. field. repeat split; lra.
  - rewrite Es. field. lra.
  - destruct (spec_synthesize_coefficients fc Q C m Hfc HQ HC Hm) as [E2 E1].
    cbv zeta in E2, E1.
    assert (Er : sqrt (R1 (spec_synthesize fc Q C m) *
                       R2 (spec_synthesize fc Q C m) *
                       C1 (spec_synthesize fc Q C m) *
                       C2 (spec_synthesize fc Q C m)) = / (2 * PI * fc)).
    { replace (R1 (spec_synthesize fc Q C m) * R2 (spec_synthesize fc Q C m) *
               C1 (spec_synthesize fc Q C m) * C2 (spec_synthesize fc Q C m))
        with (R1 (spec_synthesize fc Q C m) * C1 (spec_synthesize fc Q C m) *
              R2 (spec_synthesize fc Q C m) * C2 (spec_synthesize fc Q C m))
        by ring.
      rewrite E2.
      replace (/ (2 * PI * fc) ^ 2) with (Rsqr (/ (2 * PI * fc)))
        by (unfold Rsqr; field; repeat split; lra).
      apply sqrt_Rsqr. apply Rlt_le, Rinv_0_lt_compat.
      apply Rmult_lt_0_compat; lra. }
    rewrite Er, E1. split; field; repeat split; lra.
Qed.

Lemma design_equations_witness :
  (0 < 10 /\ 0 < 1 /\ 0 < 3 /\ 0 < 2) /\
  exists n0 R0 cv,
    n 1 2 = Ok n0 /\
    R_ 10 2 3 n0 = Ok R0 /\
    synthesize 10 1 3 2 = Ok cv /\
    1 / (2 * PI * R0 * 3 * sqrt (2 * n0)) = 10 /\
    sqrt (2 * n0) / (2 + 1) = 1 /\
    1 / (2 * PI * sqrt (R1 cv * R2 cv * C1 cv * C2 cv)) = 10 /\
    sqrt (R1 cv * R2 cv * C1 cv * C2 cv) / (R1 cv * C1 cv + R2 cv * C1 cv) = 1.
Proof.
  split; [lra|].
  apply (design_equations 10 1 3 2); lra.
Defined.
Lemma norm2_canonical_pos (Q x : R) : 0 < Q -> 0 < norm2_canonical Q x.
Proof.
  intros HQ. unfold norm2_canonical.
  destruct (Req_dec_T x 0) as [->|Nx].
  - replace ((1 - 0 ^ 2) ^ 2 + (0 / Q) ^ 2) with 1 by (field; lra). lra.
  - assert (0 < (x / Q) ^ 2).
    { assert (N : x / Q <> 0).
      { unfold Rdiv. apply Rmult_integral_contrapositive.
        split; [exact Nx|]. apply Rinv_neq_0_compat. lra. }
      pose proof (pow2_ge_0 (x / Q)). nra. }
    pose proof (pow2_ge_0 (1 - x ^ 2)). lra.
Qed.

Lemma norm2_denominator_canonical (fc Q C m f : R) :
  0 < fc -> 0 < Q -> 0 < C -> 0 < m ->
  norm2_denominator (spec_synthesize fc Q C m) f = norm2_canonical Q (f / fc).
Proof.
  intros Hfc HQ HC Hm. rewrite <- Cnorm2_denominator.
  rewrite spec_denominator_canonical by assumption.
  unfold Cnorm2, norm2_canonical. cbn [real imag]. field. lra.
Qed.

(** The magnitude of the designed filter, in dB. *)
Lemma magnitude_canonical (fc Q C m f : R) :
  0 < fc -> 0 < Q -> 0 < C -> 0 < m ->
  spec_magnitude_db (spec_synthesize fc Q C m) f =
    -10 * (ln (norm2_canonical Q (f / fc)) / ln 10).
Proof.
  intros Hfc HQ HC Hm.
  rewrite spec_magnitude_db_norm2
    by (apply spec_denominator_nonzero, spec_synthesize_valid; assumption).
  rewrite norm2_denominator_canonical by assumption.
  rewrite ln_sqrt_inv by (apply norm2_canonical_pos; exact HQ).
  pose proof ln10_pos. field. lra.
Qed.

Lemma M_canonical (fc Q C m f : R) :
  0 < fc -> 0 < Q -> 0 < C -> 0 < m ->
  M (spec_synthesize fc Q C m) f =
    Ok (-10 * (ln (norm2_canonical Q (f / fc)) / ln 10)).
Proof.
  intros Hfc HQ HC Hm.
  rewrite M_returns by (apply spec_synthesize_valid; assumption).
  f_equal. apply magnitude_canonical; assumption.
Qed.

Lemma A_canonical (fc Q C m f : R) :
  0 < fc -> 0 < Q -> 0 < C -> 0 < m ->
  A (spec_synthesize fc Q C m) f =
    Ok (180 / PI *
        Ratan2 (imag (H_canonical fc Q f)) (real (H_canonical fc Q f))).
Proof.
  intros Hfc HQ HC Hm.
  rewrite A_real
    by (apply spec_denominator_nonzero, spec_synthesize_valid; assumption).
  unfold spec_phase_degrees. rewrite spec_H_canonical by assumption.
  reflexivity.
Qed.

(** X3: at the cutoff frequency the designed filter has the gain -j Q: the
    magnitude is 20 log10 Q and the phase is -90 degrees, for every
    positive fc, Q, C and m. *)
Theorem response_at_cutoff (fc Q C m : R) :
  0 < fc -> 0 < Q -> 0 < C -> 0 < m ->
  exists cv,
    synthesize fc Q C m = Ok cv /\
    H cv fc = Ok (Complex 0 (- Q)) /\
    M cv fc = Ok (20 * (ln Q / ln 10)) /\
    A cv fc = Ok (-90).
Proof.
  intros Hfc HQ HC Hm. exists (spec_synthesize fc Q C m).
  pose proof PI_RGT_0 as Hpi. pose proof ln10_pos as Hl.
  assert (V : valid (spec_synthesize fc Q C m))
    by (apply spec_synthesize_valid; assumption).
  assert (EH : H_canonical fc Q fc = Complex 0 (- Q)).
  { unfold H_canonical, Cinv, Cnorm2. cbn [real imag].
    apply complex_eq; field; repeat split; lra. }
  split; [apply synthesize_positive; assumption|]. split; [|split].
  - rewrite <- EH, <- (spec_H_canonical fc Q C m fc) by assumption.
    apply H_real, spec_denominator_nonzero, V.
  - rewrite M_canonical by assumption. f_equal.
    replace (norm2_canonical Q (fc / fc)) with (/ (Q * Q))
      by (unfold norm2_canonical; field; lra).
    rewrite ln_Rinv by (apply Rmult_lt_0_compat; assumption).
    rewrite ln_mult by assumption. field. lra.
  - rewrite A_canonical by assumption. f_equal. rewrite EH. cbn [real imag].
    unfold Ratan2.
    destruct (Rlt_dec 0 0) as [F|_]; [lra|].
    destruct (Rlt_dec 0 (- Q)) as [F|_]; [lra|].
    destruct (Rlt_dec (- Q) 0) as [_|F]; [|lra].
    field. lra.
Qed.

Lemma response_at_cutoff_witness :
  (0 < 10 /\ 0 < 2 /\ 0 < 3 /\ 0 < 1) /\
  exists cv,
    synthesize 10 2 3 1 = Ok cv /\
    H cv 10 = Ok (Complex 0 (- 2)) /\
    M cv 10 = Ok (20 * (ln 2 / ln 10)) /\
    A cv 10 = Ok (-90).
Proof.
  split; [lra|].
  apply (response_at_cutoff 10 2 3 1); lra.
Defined.

(** X4: the response of the designed filter depends on the quality factor
    and on the ratio f / fc only: two designs with the same Q, whatever
    their cutoff frequencies, capacitances and resistor ratios, have the
    same gain, magnitude and phase at frequencies in the same ratio to the
    cutoff. *)
Theorem response_depends_on_ratio (fc fc' Q C C' m m' f f' : R) :
  0 < fc -> 0 < fc' -> 0 < Q -> 0 < C -> 0 < C' -> 0 < m -> 0 < m' ->
  f / fc = f' / fc' ->
  exists cv cv',
    synthesize fc Q C m = Ok cv /\
    synthesize fc' Q C' m' = Ok cv' /\
    returns (H cv f) /\
    H cv f = H cv' f' /\ M cv f = M cv' f' /\ A cv f = A cv' f'.
Proof.
  intros Hfc Hfc' HQ HC HC' Hm Hm' E.
  exists (spec_synthesize fc Q C m), (spec_synthesize fc' Q C' m').
  assert (V : valid (spec_synthesize fc Q C m))
    by (apply spec_synthesize_valid; assumption).
  assert (V' : valid (spec_synthesize fc' Q C' m'))
    by (apply spec_synthesize_valid; assumption).
  assert (EH : H_canonical fc Q f = H_canonical fc' Q f').
  { unfold H_canonical.
    replace (f / (Q * fc)) with (f / fc / Q) by (field; lra).
    replace (f' / (Q * fc')) with (f' / fc' / Q) by (field; lra).
    rewrite E. reflexivity. }
  split; [apply synthesize_positive; assumption|].
  split; [apply synthesize_positive; assumption|].
  split; [|split; [|split]].
  - exists (spec_H (spec_synthesize fc Q C m) f).
    apply H_real, spec_denominator_nonzero, V.
  - rewrite !H_real by (apply spec_denominator_nonzero; assumption).
    rewrite !spec_H_canonical by assumption. rewrite EH. reflexivity.
  - rewrite !M_canonical by assumption. rewrite E. reflexivity.
  - rewrite !A_canonical by assumption. rewrite EH. reflexivity.
Qed.

Lemma response_depends_on_ratio_witness :
  (0 < 10 /\ 0 < 20 /\ 0 < 1 /\ 0 < 3 /\ 0 < 4 /\ 0 < 1 /\ 0 < 2 /\
   5 / 10 = 10 / 20) /\
  exists cv cv',
    synthesize 10 1 3 1 = Ok cv /\
    synthesize 20 1 4 2 = Ok cv' /\
    returns (H cv 5) /\
    H cv 5 = H cv' 10 /\ M cv 5 = M cv' 10 /\ A cv 5 = A cv' 10.
Proof.
  split; [lra|].
  apply (response_depends_on_ratio 10 20 1 3 4 1 2 5 10); lra.
Defined.
(** ** The shape of the magnitude curve *)

Lemma norm2_canonical_expand (Q x : R) :
  0 < Q -> norm2_canonical Q x = 1 + (/ (Q * Q) - 2) * x ^ 2 + x ^ 4.
Proof. intros HQ. unfold norm2_canonical. field. lra. Qed.

Lemma Q_butterworth_sqr : Q_butterworth * Q_butterworth = / 2.
Proof.
  unfold Q_butterworth. pose proof sqrt2_bounds as B.
  replace (1 / sqrt 2 * (1 / sqrt 2)) with (/ (sqrt 2 * sqrt 2))
    by (field; lra).
  rewrite sqrt2_sqr. reflexivity.
Qed.

Lemma quality_le_butterworth (Q : R) :
  0 < Q -> (Q <= Q_butterworth <-> Q * Q <= / 2).
Proof.
  intros HQ. pose proof Q_butterworth_pos as HB.
  pose proof Q_butterworth_sqr as E. split; intros L; nra.
Qed.

Lemma ln_nonneg (x : R) : 1 <= x -> 0 <= ln x.
Proof.
  intros [L|<-]; [|rewrite ln_1; lra].
  rewrite <- ln_1. apply Rlt_le, ln_increasing; lra.
Qed.

(** X5: for the Butterworth quality factor Q = 1/sqrt(2), the value that
    the notebook sets, the magnitude of the designed filter is
    -10 log10 (1 + (f/fc)^4) at every frequency, whatever fc, C and m. *)
Theorem butterworth_magnitude (fc C m f : R) :
  0 < fc -> 0 < C -> 0 < m ->
  exists cv,
    synthesize fc Q_butterworth C m = Ok cv /\
    M cv f = Ok (-10 * (ln (1 + (f / fc) ^ 4) / ln 10)).
Proof.
  intros Hfc HC Hm. pose proof Q_butterworth_pos as HQ.
  exists (spec_synthesize fc Q_butterworth C m).
  split; [apply synthesize_positive; assumption|].
  rewrite M_canonical by assumption.
  rewrite norm2_canonical_expand by exact HQ.
  rewrite Q_butterworth_sqr, Rinv_inv.
  replace (1 + (2 - 2) * (f / fc) ^ 2 + (f / fc) ^ 4) with (1 + (f / fc) ^ 4)
    by ring.
  reflexivity.
Qed.

Lemma butterworth_magnitude_witness :
  (0 < 10 /\ 0 < 3 /\ 0 < 2) /\
  exists cv,
    synthesize 10 Q_butterworth 3 2 = Ok cv /\
    M cv 5 = Ok (-10 * (ln (1 + (5 / 10) ^ 4) / ln 10)).
Proof.
  split; [lra|].
  apply (butterworth_magnitude 10 3 2 5); lra.
Defined.

Lemma norm2_canonical_peak (Q : R) :
  / 2 < Q * Q ->
  0 < 1 - / (2 * (Q * Q)) /\
  norm2_canonical Q (sqrt (1 - / (2 * (Q * Q)))) < 1.
Proof.
  intros L. assert (HQ2 : 0 < Q * Q) by lra.
  assert (HQ : Q <> 0) by (intros ->; lra).
  set (t := 1 - / (2 * (Q * Q))).
  assert (I : / (2 * (Q * Q)) * (2 * (Q * Q)) = 1) by (field; exact HQ).
  assert (Ip : 0 < / (2 * (Q * Q))) by (apply Rinv_0_lt_compat; lra).
  assert (Ht : 0 < t < 1) by (unfold t; split; nra).
  split; [apply Ht|].
  unfold norm2_canonical.
  replace ((1 - sqrt t ^ 2) ^ 2 + (sqrt t / Q) ^ 2)
    with ((1 - sqrt t * sqrt t) ^ 2 + (sqrt t * sqrt t) / (Q * Q))
    by (field; exact HQ).
  rewrite sqrt_sqrt by lra.
  replace ((1 - t) ^ 2 + t / (Q * Q)) with (1 - t * t)
    by (unfold t; field; exact HQ).
  nra.
Qed.

(** X6: the magnitude of the designed filter stays at or below 0 dB at
    every frequency exactly when Q <= 1/sqrt(2); for a larger Q the curve
    rises above 0 dB at the frequency fc sqrt (1 - 1/(2 Q^2)). *)
Theorem no_peaking_iff (fc Q C m : R) :
  0 < fc -> 0 < Q -> 0 < C -> 0 < m ->
  exists cv,
    synthesize fc Q C m = Ok cv /\
    ((forall f, exists v, M cv f = Ok v /\ v <= 0) <-> Q <= 1 / sqrt 2) /\
    (1 / sqrt 2 < Q ->
     exists v, M cv (fc * sqrt (1 - / (2 * (Q * Q)))) = Ok v /\ 0 < v).
Proof.
  intros Hfc HQ HC Hm. exists (spec_synthesize fc Q C m).
  split; [apply synthesize_positive; assumption|].
  pose proof ln10_pos as Hl. fold Q_butterworth.
  assert (Peak : Q_butterworth < Q ->
            exists v, M (spec_synthesize fc Q C m)
                        (fc * sqrt (1 - / (2 * (Q * Q)))) = Ok v /\ 0 < v).
  { intros L.
    assert (L2 : / 2 < Q * Q).
    { apply Rnot_le_lt. intros N.
      apply (quality_le_butterworth Q HQ) in N. lra. }
    destruct (norm2_canonical_peak Q L2) as [Pt Pn].
    eexists. split; [apply M_canonical; assumption|].
    replace (fc * sqrt (1 - / (2 * (Q * Q))) / fc)
      with (sqrt (1 - / (2 * (Q * Q)))) by (field; lra).
    pose proof (norm2_canonical_pos Q (sqrt (1 - / (2 * (Q * Q)))) HQ) as Pp.
    pose proof (ln_increasing _ _ Pp Pn) as Ln. rewrite ln_1 in Ln.
    assert (ln (norm2_canonical Q (sqrt (1 - / (2 * (Q * Q))))) / ln 10 < 0).
    { unfold Rdiv. pose proof (Rinv_0_lt_compat _ Hl). nra. }
    lra. }
  split; [|exact Peak].
  split.
  - intros Hall. apply Rnot_lt_le. intros L.
    destruct (Peak L) as (v & Ev & Pv).
    destruct (Hall (fc * sqrt (1 - / (2 * (Q * Q))))) as (v' & Ev' & Nv').
    rewrite Ev in Ev'. injection Ev' as <-. lra.
  - intros L f. apply (quality_le_butterworth Q HQ) in L.
    eexists. split; [apply M_canonical; assumption|].
    rewrite norm2_canonical_expand by exact HQ.
    assert (HQ2 : 0 < Q * Q) by (apply Rmult_lt_0_compat; assumption).
    assert (Hi : 2 <= / (Q * Q)).
    { rewrite <- (Rinv_inv 2). apply Rinv_le_contravar; assumption. }
    assert (P2 : 0 <= (f / fc) ^ 2) by apply pow2_ge_0.
    assert (P4 : 0 <= (f / fc) ^ 4).
    { replace ((f / fc) ^ 4) with (((f / fc) ^ 2) ^ 2) by ring.
      apply pow2_ge_0. }
    assert (N1 : 1 <= 1 + (/ (Q * Q) - 2) * (f / fc) ^ 2 + (f / fc) ^ 4) by nra.
    pose proof (ln_nonneg _ N1) as Ln.
    assert (0 <= ln (1 + (/ (Q * Q) - 2) * (f / fc) ^ 2 + (f / fc) ^ 4)
                 / ln 10).
    { unfold Rdiv. pose proof (Rinv_0_lt_compat _ Hl). nra. }
    lra.
Qed.

Lemma no_peaking_iff_witness :
  (0 < 10 /\ 0 < 1 /\ 0 < 3 /\ 0 < 2) /\
  exists cv,
    synthesize 10 1 3 2 = Ok cv /\
    ((forall f, exists v, M cv f = Ok v /\ v <= 0) <-> 1 <= 1 / sqrt 2) /\
    (1 / sqrt 2 < 1 ->
     exists v, M cv (10 * sqrt (1 - / (2 * (1 * 1)))) = Ok v /\ 0 < v).
Proof.
  split; [lra|].
  apply (no_peaking_iff 10 1 3 2); lra.
Defined.

(** For Q <= 1/sqrt(2) the magnitude of the designed filter decreases from
    frequency 0 on. *)
Lemma spec_magnitude_db_decreasing (fc Q C m f1 f2 : R) :
  0 < fc -> 0 < Q -> 0 < C -> 0 < m ->
  Q <= Q_butterworth -> 0 <= f1 < f2 ->
  spec_magnitude_db (spec_synthesize fc Q C m) f2 <
  spec_magnitude_db (spec_synthesize fc Q C m) f1.
Proof.
  intros Hfc HQ HC Hm L [P1 L12].
  apply (quality_le_butterworth Q HQ) in L.
  rewrite !magnitude_canonical by assumption.
  pose proof ln10_pos as Hl.
  assert (HQ2 : 0 < Q * Q) by (apply Rmult_lt_0_compat; assumption).
  assert (Hi : 2 <= / (Q * Q)).
  { rewrite <- (Rinv_inv 2). apply Rinv_le_contravar; assumption. }
  set (x1 := f1 / fc). set (x2 := f2 / fc).
  assert (Px1 : 0 <= x1).
  { unfold x1, Rdiv. pose proof (Rinv_0_lt_compat _ Hfc). nra. }
  assert (Lx : x1 < x2).
  { unfold x1, x2, Rdiv. apply Rmult_lt_compat_r; [|exact L12].
    apply Rinv_0_lt_compat, Hfc. }
  assert (L2 : x1 ^ 2 < x2 ^ 2) by nra.
  assert (L4 : x1 ^ 4 < x2 ^ 4).
  { replace (x1 ^ 4) with ((x1 ^ 2) ^ 2) by ring.
    replace (x2 ^ 4) with ((x2 ^ 2) ^ 2) by ring.
    pose proof (pow2_ge_0 x1). nra. }
  assert (LN : norm2_canonical Q x1 < norm2_canonical Q x2).
  { rewrite !norm2_canonical_expand by exact HQ. nra. }
  pose proof (ln_increasing _ _ (norm2_canonical_pos Q x1 HQ) LN) as Ln.
  assert (ln (norm2_canonical Q x1) / ln 10 <
          ln (norm2_canonical Q x2) / ln 10).
  { unfold Rdiv. apply Rmult_lt_compat_r; [|exact Ln].
    apply Rinv_0_lt_compat, Hl. }
  lra.
Qed.

(** X7: for Q <= 1/sqrt(2) the magnitude of the designed filter decreases
    strictly as the frequency grows from 0: the curve has no ripple. *)
Theorem magnitude_decreasing (fc Q C m f1 f2 : R) :
  0 < fc -> 0 < Q -> 0 < C -> 0 < m ->
  Q <= 1 / sqrt 2 -> 0 <= f1 < f2 ->
  exists cv v1 v2,
    synthesize fc Q C m = Ok cv /\
    M cv f1 = Ok v1 /\ M cv f2 = Ok v2 /\ v2 < v1.
Proof.
  intros Hfc HQ HC Hm L Hf. fold Q_butterworth in L.
  assert (V : valid (spec_synthesize fc Q C m))
    by (apply spec_synthesize_valid; assumption).
  exists (spec_synthesize fc Q C m). do 2 eexists.
  split; [apply synthesize_positive; assumption|].
  split; [apply M_returns, V|]. split; [apply M_returns, V|].
  apply (spec_magnitude_db_decreasing fc Q C m f1 f2); assumption.
Qed.

Lemma magnitude_decreasing_witness :
  (0 < 10 /\ 0 < / 2 /\ 0 < 3 /\ 0 < 2 /\ / 2 <= 1 / sqrt 2 /\ 0 <= 1 < 2) /\
  exists cv v1 v2,
    synthesize 10 (/ 2) 3 2 = Ok cv /\
    M cv 1 = Ok v1 /\ M cv 2 = Ok v2 /\ v2 < v1.
Proof.
  assert (L : / 2 <= 1 / sqrt 2).
  { pose proof sqrt2_bounds as [Sl Su].
    apply (Rmult_le_reg_r (sqrt 2)); [lra|].
    replace (1 / sqrt 2 * sqrt 2) with 1 by (field; lra). lra. }
  split; [lra|].
  apply (magnitude_decreasing 10 (/ 2) 3 2 1 2); lra.
Defined.
(** *** The slope at high frequencies *)

(** The ratio of the squared moduli of the divisor a decade apart, in
    terms of [u = (fc / f)^2], is continuous at [u = 0], where it is
    [10^4]. *)
Lemma decade_ratio_continuous (a : R) :
  continuity_pt
    (fun u => ln ((u ^ 2 + 100 * a * u + 10000) / (u ^ 2 + a * u + 1))) 0.
Proof.
  assert (K1 : continuity_pt (fun u => u ^ 2 + 100 * a * u + 10000) 0) by reg.
  assert (K2 : continuity_pt (fun u => u ^ 2 + a * u + 1) 0) by reg.
  assert (Kd : continuity_pt
                 (div_fct (fun u => u ^ 2 + 100 * a * u + 10000)
                          (fun u => u ^ 2 + a * u + 1)) 0).
  { apply continuity_pt_div; [exact K1 | exact K2 | lra]. }
  assert (Kl : continuity_pt
                 (comp ln (div_fct (fun u => u ^ 2 + 100 * a * u + 10000)
                                   (fun u => u ^ 2 + a * u + 1))) 0).
  { apply continuity_pt_comp; [exact Kd|].
    apply continuity_pt_ln. unfold div_fct.
    replace ((0 ^ 2 + 100 * a * 0 + 10000) / (0 ^ 2 + a * 0 + 1)) with 10000
      by field.
    lra. }
  exact Kl.
Qed.

Lemma ln_10000 : ln 10000 = 4 * ln 10.
Proof.
  replace 10000 with (10 ^ 4) by ring. rewrite ln_pow by lra.
  replace (INR 4) with 4 by (rewrite INR_IZR_INZ; reflexivity). reflexivity.
Qed.

Lemma norm2_canonical_decade (Q x : R) :
  0 < Q -> 0 < x ->
  ln (norm2_canonical Q (10 * x)) - ln (norm2_canonical Q x) =
    ln (((/ x ^ 2) ^ 2 + 100 * (/ (Q * Q) - 2) * (/ x ^ 2) + 10000) /
        ((/ x ^ 2) ^ 2 + (/ (Q * Q) - 2) * (/ x ^ 2) + 1)).
Proof.
  intros HQ Hx.
  pose proof (norm2_canonical_pos Q x HQ) as P1.
  pose proof (norm2_canonical_pos Q (10 * x) HQ) as P10.
  replace (((/ x ^ 2) ^ 2 + 100 * (/ (Q * Q) - 2) * (/ x ^ 2) + 10000) /
           ((/ x ^ 2) ^ 2 + (/ (Q * Q) - 2) * (/ x ^ 2) + 1))
    with (norm2_canonical Q (10 * x) * / norm2_canonical Q x).
  - rewrite ln_mult by (try apply Rinv_0_lt_compat; assumption).
    rewrite ln_Rinv by assumption. ring.
  - rewrite norm2_canonical_expand in P1 by exact HQ.
    rewrite !norm2_canonical_expand by exact HQ.
    assert (HQ2 : 0 < Q * Q) by (apply Rmult_lt_0_compat; assumption).
    field. repeat split; try lra.
    intros E. apply (Rlt_irrefl 0). rewrite <- E at 2.
    match goal with
    | |- 0 < ?e =>
        replace e with (Q * Q * (1 + (/ (Q * Q) - 2) * x ^ 2 + x ^ 4))
          by (field; lra)
    end.
    apply Rmult_lt_0_compat; assumption.
Qed.

(** X8: far above the cutoff the magnitude of the designed filter falls by
    40 dB per decade, the slope of a filter of second order: the step from
    f to 10 f comes as close to -40 dB as wanted once f is large enough. *)
Theorem rolloff_40dB_per_decade (fc Q C m : R) :
  0 < fc -> 0 < Q -> 0 < C -> 0 < m ->
  exists cv,
    synthesize fc Q C m = Ok cv /\
    forall eps : R, 0 < eps ->
      exists F : R, 0 < F /\
        forall f : R, F < f ->
          exists v v10 : R,
            M cv f = Ok v /\ M cv (10 * f) = Ok v10 /\
            Rabs (v10 - v + 40) < eps.
Proof.
  intros Hfc HQ HC Hm. exists (spec_synthesize fc Q C m).
  split; [apply synthesize_positive; assumption|].
  intros eps He. pose proof ln10_pos as Hl.
  assert (He' : 0 < eps * ln 10 / 10).
  { apply Rdiv_lt_0_compat; [apply Rmult_lt_0_compat; assumption | lra]. }
  destruct (decade_ratio_continuous (/ (Q * Q) - 2) _ He')
    as (delta & Hdelta & Hlim).
  cbn in Hdelta.
  exists (fc * (1 + / delta)).
  assert (Pd : 0 < / delta) by (apply Rinv_0_lt_compat; exact Hdelta).
  split; [apply Rmult_lt_0_compat; lra|].
  intros f Hf. do 2 eexists.
  split; [apply M_canonical; assumption|].
  split; [apply M_canonical; assumption|].
  set (x := f / fc).
  assert (Hx : 1 + / delta < x).
  { unfold x. apply (Rmult_lt_reg_r fc); [exact Hfc|].
    replace (f / fc * fc) with f by (field; lra). lra. }
  assert (Px : 0 < x) by lra.
  replace (10 * f / fc) with (10 * x) by (unfold x; field; lra).
  assert (Px2 : / delta < x ^ 2) by nra.
  assert (Pu : 0 < / x ^ 2) by (apply Rinv_0_lt_compat; nra).
  assert (Lu : / x ^ 2 < delta).
  { rewrite <- (Rinv_inv delta). apply Rinv_lt_contravar; [nra | exact Px2]. }
  assert (Hd : D_x no_cond 0 (/ x ^ 2) /\ R_dist (/ x ^ 2) 0 < delta).
  { split; [split; [exact I | lra]|].
    unfold R_dist. rewrite Rminus_0_r, Rabs_pos_eq by lra. exact Lu. }
  specialize (Hlim _ Hd). cbn [dist R_met] in Hlim. unfold R_dist in Hlim.
  cbv beta in Hlim.
  rewrite <- (norm2_canonical_decade Q x HQ Px) in Hlim.
  replace (ln ((0 ^ 2 + 100 * (/ (Q * Q) - 2) * 0 + 10000) /
               (0 ^ 2 + (/ (Q * Q) - 2) * 0 + 1)))
    with (4 * ln 10) in Hlim
    by (rewrite <- ln_10000; f_equal;
        replace (0 ^ 2 + (/ (Q * Q) - 2) * 0 + 1) with 1 by ring;
        replace (0 ^ 2 + 100 * (/ (Q * Q) - 2) * 0 + 10000) with 10000 by ring;
        lra).
  set (d := ln (norm2_canonical Q (10 * x)) - ln (norm2_canonical Q x)) in *.
  replace (-10 * (ln (norm2_canonical Q (10 * x)) / ln 10) -
           -10 * (ln (norm2_canonical Q x) / ln 10) + 40)
    with (- (10 / ln 10) * (d - 4 * ln 10))
    by (unfold d; field; lra).
  rewrite Rabs_mult, Rabs_Ropp.
  assert (K : 0 < 10 / ln 10) by (apply Rdiv_lt_0_compat; lra).
  rewrite (Rabs_pos_eq (10 / ln 10)) by lra.
  apply (Rmult_lt_reg_r (ln 10 / 10)); [apply Rdiv_lt_0_compat; lra|].
  replace (10 / ln 10 * Rabs (d - 4 * ln 10) * (ln 10 / 10))
    with (Rabs (d - 4 * ln 10)) by (field; lra).
  replace (eps * (ln 10 / 10)) with (eps * ln 10 / 10) by (field; lra).
  exact Hlim.
Qed.

Lemma rolloff_40dB_per_decade_witness :
  (0 < 10 /\ 0 < 1 /\ 0 < 3 /\ 0 < 2) /\
  exists cv,
    synthesize 10 1 3 2 = Ok cv /\
    forall eps : R, 0 < eps ->
      exists F : R, 0 < F /\
        forall f : R, F < f ->
          exists v v10 : R,
            M cv f = Ok v /\ M cv (10 * f) = Ok v10 /\
            Rabs (v10 - v + 40) < eps.
Proof.
  split; [lra|].
  apply (rolloff_40dB_per_decade 10 1 3 2); lra.
Defined.
(** ** The shape of the phase curve *)

Lemma Ratan2_fourth_quadrant (y x : R) :
  0 < x -> y < 0 -> - (PI / 2) < Ratan2 y x < 0.
Proof.
  intros Px Ny. unfold Ratan2. destruct (Rlt_dec 0 x) as [_|F]; [|lra].
  assert (N : y / x < 0).
  { unfold Rdiv. pose proof (Rinv_0_lt_compat x Px). nra. }
  pose proof (atan_bound (y / x)) as [L _].
  pose proof (atan_increasing _ _ N) as U. rewrite atan_0 in U. lra.
Qed.

Lemma Ratan2_third_quadrant (y x : R) :
  x < 0 -> y < 0 -> - PI < Ratan2 y x < - (PI / 2).
Proof.
  intros Nx Ny. unfold Ratan2.
  destruct (Rlt_dec 0 x) as [F|_]; [lra|].
  destruct (Rlt_dec x 0) as [_|F]; [|lra].
  destruct (Rle_dec 0 y) as [F|_]; [lra|].
  assert (P : 0 < y / x).
  { unfold Rdiv. pose proof (Rinv_lt_0_compat x Nx). nra. }
  pose proof (atan_bound (y / x)) as [_ U].
  pose proof (atan_increasing _ _ P) as L. rewrite atan_0 in L. lra.
Qed.

Lemma Ratan2_positive_axis (x : R) : 0 < x -> Ratan2 0 x = 0.
Proof.
  intros Px. unfold Ratan2. destruct (Rlt_dec 0 x) as [_|F]; [|lra].
  unfold Rdiv. rewrite Rmult_0_l. apply atan_0.
Qed.

Lemma Ratan2_opp (y x : R) :
  y <> 0 \/ 0 < x -> Ratan2 (- y) x = - Ratan2 y x.
Proof.
  intros Hyx. unfold Ratan2.
  replace (- y / x) with (- (y / x)) by (unfold Rdiv; ring).
  rewrite atan_opp.
  destruct (Rlt_dec 0 x) as [Px|Px]; [reflexivity|].
  assert (Ny : y <> 0) by (destruct Hyx; [assumption | lra]).
  destruct (Rlt_dec x 0) as [Nx|Nx].
  - destruct (Rle_dec 0 (- y)), (Rle_dec 0 y); lra.
  - destruct (Rlt_dec 0 (- y)), (Rlt_dec (- y) 0), (Rlt_dec 0 y),
      (Rlt_dec y 0); lra.
Qed.

Lemma degrees_lt (t u : R) : t < u -> 180 / PI * t < 180 / PI * u.
Proof.
  intros L. pose proof PI_RGT_0 as Hpi.
  apply Rmult_lt_compat_l; [apply Rdiv_lt_0_compat; lra | exact L].
Qed.

Lemma degrees_PI : 180 / PI * PI = 180.
Proof. pose proof PI_RGT_0. field. lra. Qed.

(** The two parts of the gain of the designed filter. *)
Lemma H_canonical_parts (fc Q f : R) :
  real (H_canonical fc Q f) =
    (1 - (f / fc) ^ 2) / Cnorm2 (Complex (1 - (f / fc) ^ 2) (f / (Q * fc))) /\
  imag (H_canonical fc Q f) =
    - (f / (Q * fc)) / Cnorm2 (Complex (1 - (f / fc) ^ 2) (f / (Q * fc))).
Proof. split; reflexivity. Qed.

(** X9: the designed filter lags.  Its phase is 0 at frequency 0, lies
    between -90 and 0 degrees below the cutoff frequency, and between -180
    and -90 degrees above it. *)
Theorem phase_lag (fc Q C m f : R) :
  0 < fc -> 0 < Q -> 0 < C -> 0 < m ->
  exists cv a,
    synthesize fc Q C m = Ok cv /\
    A cv f = Ok a /\
    (f = 0 -> a = 0) /\
    (0 < f < fc -> -90 < a < 0) /\
    (fc < f -> -180 < a < -90).
Proof.
  intros Hfc HQ HC Hm. exists (spec_synthesize fc Q C m). eexists.
  split; [apply synthesize_positive; assumption|].
  split; [apply A_canonical; assumption|].
  destruct (H_canonical_parts fc Q f) as [Er Ei]. rewrite Er, Ei.
  set (N := Cnorm2 (Complex (1 - (f / fc) ^ 2) (f / (Q * fc)))).
  pose proof PI_RGT_0 as Hpi. pose proof degrees_PI as EPI.
  assert (HN : f <> 0 -> 0 < N).
  { intros Nf. apply Cnorm2_pos. intros E. injection E as _ E.
    apply Nf. apply (Rmult_eq_reg_r (/ (Q * fc))).
    - rewrite Rmult_0_l. exact E.
    - apply Rinv_neq_0_compat. nra. }
  assert (Hb : 0 < f -> - (f / (Q * fc)) / N < 0).
  { intros Pf. assert (PN : 0 < N) by (apply HN; lra).
    assert (0 < f / (Q * fc)) by (apply Rdiv_lt_0_compat; nra).
    unfold Rdiv at 1. pose proof (Rinv_0_lt_compat N PN). nra. }
  assert (Hx : 0 < f -> 0 < f / fc) by (intros; apply Rdiv_lt_0_compat; lra).
  split; [|split].
  - intros ->. unfold N, Cnorm2. cbn [real imag].
    replace (- (0 / (Q * fc)) /
             ((1 - (0 / fc) ^ 2) * (1 - (0 / fc) ^ 2) +
              0 / (Q * fc) * (0 / (Q * fc)))) with 0 by (field; lra).
    rewrite Ratan2_positive_axis; [ring|].
    replace ((1 - (0 / fc) ^ 2) /
             ((1 - (0 / fc) ^ 2) * (1 - (0 / fc) ^ 2) +
              0 / (Q * fc) * (0 / (Q * fc)))) with 1 by (field; lra).
    lra.
  - intros [Pf Lf]. assert (PN : 0 < N) by (apply HN; lra).
    assert (L1 : f / fc < 1).
    { apply (Rmult_lt_reg_r fc); [exact Hfc|].
      replace (f / fc * fc) with f by (field; lra). lra. }
    assert (Pa : 0 < (1 - (f / fc) ^ 2) / N).
    { apply Rdiv_lt_0_compat; [|exact PN]. specialize (Hx Pf). nra. }
    destruct (Ratan2_fourth_quadrant _ _ Pa (Hb Pf)) as [L U].
    apply degrees_lt in L, U.
    replace (180 / PI * - (PI / 2)) with (-90) in L by (field; lra).
    rewrite Rmult_0_r in U. split; assumption.
  - intros Lf. assert (Pf : 0 < f) by lra.
    assert (PN : 0 < N) by (apply HN; lra).
    assert (L1 : 1 < f / fc).
    { apply (Rmult_lt_reg_r fc); [exact Hfc|].
      replace (f / fc * fc) with f by (field; lra). lra. }
    assert (Na : (1 - (f / fc) ^ 2) / N < 0).
    { assert (Ns : 1 - (f / fc) ^ 2 < 0) by nra.
      unfold Rdiv. pose proof (Rinv_0_lt_compat N PN). nra. }
    destruct (Ratan2_third_quadrant _ _ Na (Hb Pf)) as [L U].
    apply degrees_lt in L, U.
    replace (180 / PI * - PI) with (-180) in L by (field; lra).
    replace (180 / PI * - (PI / 2)) with (-90) in U by (field; lra).
    split; assumption.
Qed.

Lemma phase_lag_witness :
  (0 < 10 /\ 0 < 1 /\ 0 < 3 /\ 0 < 2) /\
  exists cv a,
    synthesize 10 1 3 2 = Ok cv /\
    A cv 20 = Ok a /\
    (20 = 0 -> a = 0) /\
    (0 < 20 < 10 -> -90 < a < 0) /\
    (10 < 20 -> -180 < a < -90).
Proof.
  split; [lra|].
  apply (phase_lag 10 1 3 2 20); lra.
Defined.

(** *** Negative frequencies *)

Lemma spec_H_conjugate (cv : ComponentValues R) (f : R) :
  spec_H cv (- f) = Complex (real (spec_H cv f)) (- imag (spec_H cv f)).
Proof.
  unfold spec_H. rewrite !spec_denominator_parts.
  unfold Cinv, Cnorm2. cbn [real imag].
  replace ((2 * PI * - f) ^ 2) with ((2 * PI * f) ^ 2) by ring.
  replace (2 * PI * - f * (R1 cv * C1 cv + R2 cv * C1 cv))
    with (- (2 * PI * f * (R1 cv * C1 cv + R2 cv * C1 cv))) by ring.
  set (a := 1 - (2 * PI * f) ^ 2 * (R1 cv * C1 cv * R2 cv * C2 cv)).
  set (b := 2 * PI * f * (R1 cv * C1 cv + R2 cv * C1 cv)).
  replace (a * a + - b * - b) with (a * a + b * b) by ring.
  apply complex_eq; [reflexivity|]. unfold Rdiv. ring.
Qed.

Lemma spec_H_direction (cv : ComponentValues R) (f : R) :
  valid cv -> imag (spec_H cv f) <> 0 \/ 0 < real (spec_H cv f).
Proof.
  intros V. destruct (Req_dec_T f 0) as [->|Nf].
  - right. rewrite spec_H_dc. cbn. lra.
  - left. pose proof (spec_denominator_nonzero cv f V) as N.
    pose proof (Cnorm2_pos _ N) as P.
    unfold spec_H, Cinv. cbn [imag].
    destruct V as (HC1 & HC2 & HR1 & HR2). pose proof PI_RGT_0 as Hpi.
    assert (Hb : 0 < R1 cv * C1 cv + R2 cv * C1 cv) by nra.
    assert (Ni : imag (spec_denominator cv f) <> 0).
    { rewrite spec_denominator_parts. cbn [imag]. intros E.
      apply Rmult_integral in E. destruct E as [E|E]; [|lra].
      apply Rmult_integral in E. destruct E as [E|E]; [lra | contradiction]. }
    intros E. apply Ni.
    apply (Rmult_eq_reg_r (/ Cnorm2 (spec_denominator cv f))).
    + rewrite Rmult_0_l. unfold Rdiv in E. lra.
    + apply Rinv_neq_0_compat. lra.
Qed.

(** X10: for valid component values the gain at -f is the complex
    conjugate of the gain at f: the magnitude is an even function of the
    frequency and the phase is an odd one. *)
Theorem conjugate_symmetry (cv : ComponentValues R) (f : R) :
  valid cv ->
  exists h v a,
    H cv f = Ok h /\ M cv f = Ok v /\ A cv f = Ok a /\
    H cv (- f) = Ok (Complex (real h) (- imag h)) /\
    M cv (- f) = Ok v /\
    A cv (- f) = Ok (- a).
Proof.
  intros V.
  exists (spec_H cv f), (spec_magnitude_db cv f), (spec_phase_degrees cv f).
  assert (N : forall g, spec_denominator cv g <> Complex 0 0)
    by (intros g; apply spec_denominator_nonzero, V).
  split; [apply H_real, N|]. split; [apply M_real, N|].
  split; [apply A_real, N|].
  split; [|split].
  - rewrite H_real by apply N. f_equal. apply spec_H_conjugate.
  - rewrite M_real by apply N. f_equal. unfold spec_magnitude_db.
    rewrite spec_H_conjugate. unfold Cmod, Cnorm2. cbn [real imag].
    do 4 f_equal. ring.
  - rewrite A_real by apply N. f_equal. unfold spec_phase_degrees.
    rewrite spec_H_conjugate. cbn [real imag].
    rewrite Ratan2_opp by (apply spec_H_direction, V). ring.
Qed.

Lemma conjugate_symmetry_witness :
  valid cv_example /\
  exists h v a,
    H cv_example 5 = Ok h /\ M cv_example 5 = Ok v /\ A cv_example 5 = Ok a /\
    H cv_example (- 5) = Ok (Complex (real h) (- imag h)) /\
    M cv_example (- 5) = Ok v /\
    A cv_example (- 5) = Ok (- a).
Proof.
  pose proof cv_example_valid as V.
  split; [exact V|].
  apply (conjugate_symmetry cv_example 5 V).
Defined.
(** ** The exceptions of the first cell *)

(** X11: in exact arithmetic the first cell raises exactly when fc, Q, C
    or m is zero or m is -1, and the exception is always ZeroDivisionError:
    [math.sqrt] never sees a negative number, because m n is a square.  For
    m = -1 the line of [n] still returns, with n = 0, and it is the
    division in the line of [R] that fails. *)
Theorem synthesize_raises_iff (fc Q C m : R) :
  (raises (synthesize fc Q C m) <->
     fc = 0 \/ Q = 0 \/ C = 0 \/ m = 0 \/ m = -1) /\
  (forall e, synthesize fc Q C m = Raise e -> e = ZeroDivisionError) /\
  (forall e, cell1 fc Q C m = Raise e <-> synthesize fc Q C m = Raise e) /\
  n Q (-1) = Ok 0 /\
  R_ fc (-1) C 0 = Raise ZeroDivisionError.
Proof.
  split; [|split; [|split; [|split]]].
  - destruct (synthesize_cases fc Q C m) as [(Z & E & _)|(N & E & _)].
    + split; [intros _; exact Z|]. intros _. exists ZeroDivisionError. exact E.
    + split.
      * intros [e Ee]. rewrite E in Ee. discriminate.
      * intros Z. exfalso. tauto.
  - intros e Ee.
    destruct (synthesize_cases fc Q C m) as [(_ & E & _)|(_ & E & _)];
      rewrite E in Ee; [injection Ee as <-; reflexivity | discriminate].
  - intros e. unfold cell1. destruct (synthesize fc Q C m) as [cv|e'].
    + cbn [bind]. split; discriminate.
    + cbn [bind]. split; intros E; injection E as <-; reflexivity.
  - rewrite n_real by lra. f_equal. unfold spec_n. field.
  - unfold R_. rewrite math_sqrt_real by (cbn; lra). cbn [bind].
    apply py_div_zero. cbn. replace (-1 * 0) with 0 by ring.
    rewrite sqrt_0. ring.
Qed.

Lemma synthesize_raises_iff_witness :
  raises (synthesize 10 1 3 (-1)) /\
  (cell1 0 1 3 2 = Raise ZeroDivisionError <->
   synthesize 0 1 3 2 = Raise ZeroDivisionError).
Proof.
  split.
  - apply (proj1 (synthesize_raises_iff 10 1 3 (-1))).
    right. right. right. right. reflexivity.
  - exact (proj1 (proj2 (proj2 (synthesize_raises_iff 0 1 3 2)))
             ZeroDivisionError).
Defined.

(** *** Signs in binary64 *)

Lemma binary_round_aux_sign (sx : bool) (mx ex : Z) (lx : location) :
  SFsign (binary_round_aux prec emax sx mx ex lx) = Some sx \/
  binary_round_aux prec emax sx mx ex lx = S754_nan.
Proof.
  unfold binary_round_aux.
  destruct (shr_fexp prec emax mx ex lx) as [mrs' e'].
  destruct (shr_fexp prec emax _ e' loc_Exact) as [mrs'' e''].
  destruct (shr_m mrs''); [left; reflexivity | | right; reflexivity].
  destruct (e'' <=? emax - prec)%Z; left; reflexivity.
Qed.

(** A product that is not a NaN has the sign of its factors. *)
Lemma SFmul_sign (x y : spec_float) (s : bool) :
  SFsign (SF64mul x y) = Some s ->
  exists sx sy, SFsign x = Some sx /\ SFsign y = Some sy /\ s = xorb sx sy.
Proof.
  unfold SF64mul, SFmul.
  destruct x as [sx|sx| |sx mx ex], y as [sy|sy| |sy my ey]; cbn [SFsign];
    try discriminate;
    try (intros E; injection E as <-; exists sx, sy; repeat split; fail).
  intros E. exists sx, sy. split; [reflexivity|]. split; [reflexivity|].
  destruct (binary_round_aux_sign (xorb sx sy) (Z.pos (mx * my)) (ex + ey)
              loc_Exact) as [E'|E'].
  - rewrite E' in E. injection E as <-. reflexivity.
  - rewrite E' in E. discriminate.
Qed.

(** A quotient that is not a NaN has the sign of its operands. *)
Lemma SFdiv_sign (x y : spec_float) (s : bool) :
  SFsign (SF64div x y) = Some s ->
  exists sx sy, SFsign x = Some sx /\ SFsign y = Some sy /\ s = xorb sx sy.
Proof.
  unfold SF64div, SFdiv.
  destruct x as [sx|sx| |sx mx ex], y as [sy|sy| |sy my ey]; cbn [SFsign];
    try discriminate;
    try (intros E; injection E as <-; exists sx, sy; repeat split; fail).
  destruct (SFdiv_core_binary prec emax (Z.pos mx) ex (Z.pos my) ey)
    as [[mz ez] lz].
  intros E. exists sx, sy. split; [reflexivity|]. split; [reflexivity|].
  destruct (binary_round_aux_sign (xorb sx sy) mz ez lz) as [E'|E'].
  - rewrite E' in E. injection E as <-. reflexivity.
  - rewrite E' in E. discriminate.
Qed.

(** Only a number with the sign bit set is below zero. *)
Lemma ltb_zero_sign (x : float) :
  PrimFloat.ltb x 0%float = true -> SFsign (Prim2SF x) = Some true.
Proof.
  rewrite ltb_spec. change (Prim2SF 0%float) with (S754_zero false).
  unfold SFltb, SFcompare.
  destruct (Prim2SF x) as [sx|sx| |sx mx ex]; cbn [SFsign];
    try discriminate; destruct sx; try discriminate; reflexivity.
Qed.

(** [m * (sq / m)] is never negative when [sq] is a square. *)
Lemma square_quotient_not_negative (x m : float) :
  PrimFloat.ltb (m * (x * x / m))%float 0%float = false.
Proof.
  destruct (PrimFloat.ltb (m * (x * x / m))%float 0%float) eqn:E;
    [exfalso | reflexivity].
  apply ltb_zero_sign in E. rewrite mul_spec in E.
  apply SFmul_sign in E. destruct E as (sm & sn & Em & En & Es).
  rewrite div_spec in En. apply SFdiv_sign in En.
  destruct En as (sq & sm' & Eq & Em' & En).
  rewrite mul_spec in Eq. apply SFmul_sign in Eq.
  destruct Eq as (sx & sx' & Ex & Ex' & Eq).
  rewrite Ex in Ex'. injection Ex' as <-.
  rewrite Em in Em'. injection Em' as <-.
  subst sq sn. destruct sx, sm; discriminate.
Qed.

(** X12: in binary64, whatever the four parameters are (negative, zero,
    infinite or NaN), the first cell never raises ValueError: the argument
    m n of [math.sqrt] is never below zero, since n is a square divided by
    m.  The only exceptions of the cell are ZeroDivisionError and
    OverflowError. *)
Theorem binary64_no_ValueError (fc Q C m : float) :
  synthesize fc Q C m <> Raise ValueError /\
  (forall e, synthesize fc Q C m = Raise e ->
     e = ZeroDivisionError \/ e = OverflowError).
Proof.
  assert (K : forall e, synthesize fc Q C m = Raise e ->
                e = ZeroDivisionError \/ e = OverflowError).
  { intros e. unfold synthesize, n, R_, py_pow2, py_div, math_sqrt.
    cbn [of_Z pi add mul quot eqb ltb is_finite root Binary64].
    destruct (PrimFloat.is_finite _ && negb (PrimFloat.is_finite _));
      cbn [bind]; [intros E; injection E as <-; right; reflexivity|].
    destruct (PrimFloat.eqb m _); cbn [bind];
      [intros E; injection E as <-; left; reflexivity|].
    change (of_Z_float 0) with 0%float.
    rewrite square_quotient_not_negative. cbn [bind].
    destruct (PrimFloat.eqb _ _); cbn [bind];
      [intros E; injection E as <-; left; reflexivity | discriminate]. }
  split; [|exact K].
  intros E. destruct (K _ E); discriminate.
Qed.

Lemma binary64_no_ValueError_witness :
  synthesize 0%float Q_notebook C_notebook 1%float = Raise ZeroDivisionError /\
  (ZeroDivisionError = ZeroDivisionError \/
   ZeroDivisionError = OverflowError) /\
  synthesize 10%float 0x1p+600%float C_notebook 1%float = Raise OverflowError /\
  (OverflowError = ZeroDivisionError \/ OverflowError = OverflowError) /\
  synthesize 10%float Q_notebook C_notebook (-1)%float <> Raise ValueError.
Proof.
  assert (E0 : synthesize 0%float Q_notebook C_notebook 1%float =
               Raise ZeroDivisionError) by (vm_compute; reflexivity).
  assert (E1 : synthesize 10%float 0x1p+600%float C_notebook 1%float =
               Raise OverflowError) by (vm_compute; reflexivity).
  split; [exact E0|].
  split; [exact (proj2 (binary64_no_ValueError 0%float Q_notebook C_notebook
                          1%float) _ E0)|].
  split; [exact E1|].
  split; [exact (proj2 (binary64_no_ValueError 10%float 0x1p+600%float
                          C_notebook 1%float) _ E1)|].
  exact (proj1 (binary64_no_ValueError 10%float Q_notebook C_notebook
                  (-1)%float)).
Defined.
(** ** The frequency vector and the sweeps *)

Lemma logspace_length (start stop : R) (num : nat) :
  List.length (logspace start stop num) = num.
Proof. unfold logspace. rewrite length_map, length_seq. reflexivity. Qed.

Lemma logspace_nth (start stop : R) (num i : nat) :
  (i < num)%nat ->
  nth i (logspace start stop num) 0 =
    Rpower 10 (start + INR i * ((stop - start) / INR (num - 1))).
Proof.
  intros Hi. unfold logspace.
  rewrite (nth_indep _ 0
             (Rpower 10 (start + INR 0 * ((stop - start) / INR (num - 1)))))
    by (rewrite length_map, length_seq; exact Hi).
  rewrite (map_nth
             (fun i => Rpower 10
                         (start + INR i * ((stop - start) / INR (num - 1))))).
  rewrite seq_nth by exact Hi. reflexivity.
Qed.

Lemma INR_pred_pos (num : nat) : (2 <= num)%nat -> 0 < INR (num - 1).
Proof. intros Hn. apply lt_0_INR. lia. Qed.

(** X13: [np.logspace(start, stop, num)] with at least two samples is a
    geometric progression of num numbers from 10^start to 10^stop: each
    sample is the one before it times 10^((stop - start)/(num - 1)). *)
Theorem logspace_geometric (start stop : R) (num : nat) :
  (2 <= num)%nat ->
  List.length (logspace start stop num) = num /\
  nth 0 (logspace start stop num) 0 = Rpower 10 start /\
  nth (num - 1) (logspace start stop num) 0 = Rpower 10 stop /\
  forall i : nat, (S i < num)%nat ->
    nth (S i) (logspace start stop num) 0 =
      nth i (logspace start stop num) 0 *
      Rpower 10 ((stop - start) / INR (num - 1)).
Proof.
  intros Hn. pose proof (INR_pred_pos num Hn) as Pn.
  split; [apply logspace_length|]. split; [|split].
  - rewrite logspace_nth by lia. f_equal. cbn [INR]. ring.
  - rewrite logspace_nth by lia. f_equal. field. lra.
  - intros i Hi. rewrite !logspace_nth by lia.
    rewrite <- Rpower_plus. f_equal. rewrite S_INR. ring.
Qed.

Lemma logspace_geometric_witness :
  (2 <= 1000)%nat /\
  List.length freqs = 1000%nat /\
  nth 0 freqs 0 = Rpower 10 (-2) /\
  nth (1000 - 1) freqs 0 = Rpower 10 3 /\
  forall i : nat, (S i < 1000)%nat ->
    nth (S i) freqs 0 =
      nth i freqs 0 * Rpower 10 ((3 - -2) / INR (1000 - 1)).
Proof.
  assert (Hn : (2 <= 1000)%nat) by (apply Nat.leb_le; reflexivity).
  split; [exact Hn|].
  apply (logspace_geometric (-2) 3 1000 Hn).
Defined.

(** X14: with start < stop, the samples of [np.logspace] are positive and
    strictly increasing, and none lies outside the interval from 10^start
    to 10^stop; so they can go on a logarithmic axis in the order in which
    they come. *)
Theorem logspace_increasing (start stop : R) (num : nat) :
  start < stop ->
  forall i j : nat, (i < j)%nat -> (j < num)%nat ->
    0 < nth i (logspace start stop num) 0 /\
    nth i (logspace start stop num) 0 < nth j (logspace start stop num) 0 /\
    Rpower 10 start <= nth i (logspace start stop num) 0 /\
    nth j (logspace start stop num) 0 <= Rpower 10 stop.
Proof.
  intros Hs i j Hij Hj.
  assert (Hn : (2 <= num)%nat) by lia.
  pose proof (INR_pred_pos num Hn) as Pn.
  rewrite !logspace_nth by lia.
  set (step := (stop - start) / INR (num - 1)).
  assert (Ps : 0 < step) by (apply Rdiv_lt_0_compat; lra).
  assert (Es : INR (num - 1) * step = stop - start)
    by (unfold step; field; lra).
  pose proof (pos_INR i) as Pi.
  assert (Lij : INR i < INR j) by (apply lt_INR; exact Hij).
  assert (Ljn : INR j <= INR (num - 1)) by (apply le_INR; lia).
  split; [apply exp_pos|]. split; [|split].
  - apply Rpower_lt; [lra | nra].
  - apply Rle_Rpower; [lra | nra].
  - apply Rle_Rpower; [lra | nra].
Qed.

Lemma logspace_increasing_witness :
  -2 < 3 /\ (5 < 7)%nat /\ (7 < 1000)%nat /\
  0 < nth 5 freqs 0 /\
  nth 5 freqs 0 < nth 7 freqs 0 /\
  Rpower 10 (-2) <= nth 5 freqs 0 /\
  nth 7 freqs 0 <= Rpower 10 3.
Proof.
  assert (H57 : (5 < 7)%nat) by (apply Nat.ltb_lt; reflexivity).
  assert (H7 : (7 < 1000)%nat) by (apply Nat.ltb_lt; reflexivity).
  assert (Hs : -2 < 3) by lra.
  split; [exact Hs|]. split; [exact H57|]. split; [exact H7|].
  apply (logspace_increasing (-2) 3 1000 Hs 5 7 H57 H7).
Defined.
Lemma map_nth_default {B : Type} (v : R -> B) (fs : list R) (e : B) (i : nat) :
  (i < List.length fs)%nat -> nth i (map v fs) e = v (nth i fs 0).
Proof.
  intros Hi. rewrite (nth_indep _ e (v 0)) by (rewrite length_map; exact Hi).
  apply map_nth.
Qed.

Lemma logspace_nth_pos (start stop : R) (num i : nat) :
  (i < num)%nat -> 0 < nth i (logspace start stop num) 0.
Proof. intros Hi. rewrite logspace_nth by exact Hi. apply exp_pos. Qed.

Lemma logspace_nth_lt (start stop : R) (num i j : nat) :
  start < stop -> (i < j)%nat -> (j < num)%nat ->
  nth i (logspace start stop num) 0 < nth j (logspace start stop num) 0.
Proof.
  intros Hs Hij Hj.
  assert (Pn : 0 < INR (num - 1)) by (apply INR_pred_pos; lia).
  rewrite !logspace_nth by lia.
  assert (Ps : 0 < (stop - start) / INR (num - 1))
    by (apply Rdiv_lt_0_compat; lra).
  assert (Lij : INR i < INR j) by (apply lt_INR; exact Hij).
  apply Rpower_lt; [lra | nra].
Qed.

(** X15: the gain curve that the second cell plots.  For a design with
    Q <= 1/sqrt(2), as in the notebook, the sweep of [M] over
    [np.logspace(start, stop, num)] returns num values, all below 0 dB, and
    each one below the one before it. *)
Theorem gain_curve_decreasing (fc Q C m start stop : R) (num : nat) :
  0 < fc -> 0 < Q -> 0 < C -> 0 < m ->
  Q <= 1 / sqrt 2 -> start < stop ->
  exists cv ys,
    synthesize fc Q C m = Ok cv /\
    sweep (M cv) (logspace start stop num) = Ok ys /\
    List.length ys = num /\
    forall i j : nat, (i < j)%nat -> (j < num)%nat ->
      nth j ys 0 < nth i ys 0 /\ nth i ys 0 < 0.
Proof.
  intros Hfc HQ HC Hm L Hs. fold Q_butterworth in L.
  set (cv := spec_synthesize fc Q C m).
  assert (V : valid cv) by (apply spec_synthesize_valid; assumption).
  exists cv, (map (spec_magnitude_db cv) (logspace start stop num)).
  split; [apply synthesize_positive; assumption|].
  split; [apply sweep_returns; intros f _; apply M_returns, V|].
  split; [rewrite length_map; apply logspace_length|].
  intros i j Hij Hj.
  rewrite !map_nth_default by (rewrite logspace_length; lia).
  pose proof (logspace_nth_pos start stop num i ltac:(lia)) as Pi.
  pose proof (logspace_nth_lt start stop num i j Hs Hij Hj) as Lij.
  split.
  - apply (spec_magnitude_db_decreasing fc Q C m); try assumption. lra.
  - assert (P0 : 0 <= 0 < nth i (logspace start stop num) 0) by lra.
    pose proof (spec_magnitude_db_decreasing fc Q C m _ _ Hfc HQ HC Hm L P0)
      as D.
    fold cv in D. rewrite spec_magnitude_db_dc in D. exact D.
Qed.

Lemma gain_curve_decreasing_witness :
  (0 < 10 /\ 0 < / 2 /\ 0 < 3 /\ 0 < 2 /\ / 2 <= 1 / sqrt 2 /\ -2 < 3) /\
  exists cv ys,
    synthesize 10 (/ 2) 3 2 = Ok cv /\
    sweep (M cv) freqs = Ok ys /\
    List.length ys = 1000%nat /\
    forall i j : nat, (i < j)%nat -> (j < 1000)%nat ->
      nth j ys 0 < nth i ys 0 /\ nth i ys 0 < 0.
Proof.
  assert (L : / 2 <= 1 / sqrt 2).
  { pose proof sqrt2_bounds as [Sl Su].
    apply (Rmult_le_reg_r (sqrt 2)); [lra|].
    replace (1 / sqrt 2 * sqrt 2) with 1 by (field; lra). lra. }
  split; [lra|].
  apply (gain_curve_decreasing 10 (/ 2) 3 2 (-2) 3 1000); lra.
Defined.

Lemma Ratan2_lower_half (y x : R) : y < 0 -> - PI < Ratan2 y x < 0.
Proof.
  intros Ny. pose proof PI_RGT_0 as Hpi.
  destruct (Rtotal_order x 0) as [Nx|[->|Px]].
  - pose proof (Ratan2_third_quadrant y x Nx Ny). lra.
  - unfold Ratan2. destruct (Rlt_dec 0 0) as [F|_]; [lra|].
    destruct (Rlt_dec 0 y) as [F|_]; [lra|].
    destruct (Rlt_dec y 0) as [_|F]; lra.
  - pose proof (Ratan2_fourth_quadrant y x Px Ny). lra.
Qed.

Lemma spec_H_imag_neg (cv : ComponentValues R) (f : R) :
  valid cv -> 0 < f -> imag (spec_H cv f) < 0.
Proof.
  intros V Pf. pose proof (spec_denominator_nonzero cv f V) as N.
  pose proof (Cnorm2_pos _ N) as P.
  unfold spec_H, Cinv. cbn [imag].
  destruct V as (HC1 & HC2 & HR1 & HR2). pose proof PI_RGT_0 as Hpi.
  assert (Hb : 0 < R1 cv * C1 cv + R2 cv * C1 cv) by nra.
  assert (Pi : 0 < imag (spec_denominator cv f)).
  { rewrite spec_denominator_parts. cbn [imag].
    apply Rmult_lt_0_compat; [|exact Hb]. nra. }
  unfold Rdiv. pose proof (Rinv_0_lt_compat _ P). nra.
Qed.

(** X16: the phase curve that the second cell plots.  For valid component
    values the sweep of [A] over [np.logspace(start, stop, num)] returns
    num values, every one strictly between -180 and 0 degrees: the curve
    never meets the jump of the principal value at 180 degrees. *)
Theorem phase_curve_range (cv : ComponentValues R) (start stop : R)
  (num : nat) :
  valid cv ->
  exists ys,
    sweep (A cv) (logspace start stop num) = Ok ys /\
    List.length ys = num /\
    forall i : nat, (i < num)%nat -> -180 < nth i ys 0 < 0.
Proof.
  intros V. exists (map (spec_phase_degrees cv) (logspace start stop num)).
  split.
  { apply sweep_returns. intros f _.
    apply A_real, spec_denominator_nonzero, V. }
  split; [rewrite length_map; apply logspace_length|].
  intros i Hi. rewrite map_nth_default by (rewrite logspace_length; exact Hi).
  pose proof (logspace_nth_pos start stop num i Hi) as Pf.
  pose proof (spec_H_imag_neg cv _ V Pf) as Ni.
  destruct (Ratan2_lower_half
              _ (real (spec_H cv (nth i (logspace start stop num) 0))) Ni)
    as [L U].
  apply degrees_lt in L, U. pose proof PI_RGT_0 as Hpi.
  replace (180 / PI * - PI) with (-180) in L by (field; lra).
  rewrite Rmult_0_r in U. unfold spec_phase_degrees. split; assumption.
Qed.

Lemma phase_curve_range_witness :
  valid cv_example /\
  exists ys,
    sweep (A cv_example) freqs = Ok ys /\
    List.length ys = 1000%nat /\
    forall i : nat, (i < 1000)%nat -> -180 < nth i ys 0 < 0.
Proof.
  pose proof cv_example_valid as V.
  split; [exact V|].
  apply (phase_curve_range cv_example (-2) 3 1000 V).
Defined.

(** *** [list(map(g, freqs))] *)

Lemma sweep_app {T B : Type} (g : T -> result B) (fs1 fs2 : list T) :
  sweep g (fs1 ++ fs2) =
    (ys1 <- sweep g fs1 ;; ys2 <- sweep g fs2 ;; Ok (ys1 ++ ys2)).
Proof.
  induction fs1 as [|f rest IH]; cbn [sweep app bind].
  - destruct (sweep g fs2); reflexivity.
  - destruct (g f) as [y|e]; cbn [bind]; [|reflexivity].
    rewrite IH. destruct (sweep g rest) as [ys1|e]; cbn [bind]; [|reflexivity].
    destruct (sweep g fs2); reflexivity.
Qed.

(** X17: [list(map(g, freqs))] returns exactly when [g] returns at every
    sample, with one value per sample in the order of the samples; and it
    raises exactly the exception of the first sample at which [g] raises,
    whatever [g] does at the samples after it. *)
Theorem sweep_semantics {T B : Type} (g : T -> result B) (fs : list T) :
  (forall ys, sweep g fs = Ok ys <-> Forall2 (fun f y => g f = Ok y) fs ys) /\
  (forall e, sweep g fs = Raise e <->
     exists fs1 f fs2 ys1,
       fs = fs1 ++ f :: fs2 /\ sweep g fs1 = Ok ys1 /\ g f = Raise e).
Proof.
  split.
  - induction fs as [|f rest IH]; intros ys; cbn [sweep].
    + split.
      * intros E. injection E as <-. constructor.
      * intros F. inversion F. reflexivity.
    + split.
      * destruct (g f) as [y|e] eqn:Eg; cbn [bind]; [|discriminate].
        destruct (sweep g rest) as [ys'|e] eqn:Es; cbn [bind]; [|discriminate].
        intros E. injection E as <-. constructor; [exact Eg|].
        apply IH. reflexivity.
      * intros F. inversion F as [|f' y rest' ys' Eg Fr]; subst.
        rewrite Eg. cbn [bind]. apply IH in Fr. rewrite Fr. reflexivity.
  - intros e. split.
    + induction fs as [|f rest IH]; cbn [sweep]; [discriminate|].
      destruct (g f) as [y|e'] eqn:Eg; cbn [bind].
      * destruct (sweep g rest) as [ys'|e''] eqn:Es; cbn [bind];
          [discriminate|].
        intros E. injection E as ->.
        destruct (IH eq_refl) as (fs1 & f1 & fs2 & ys1 & -> & E1 & Ef).
        exists (f :: fs1), f1, fs2, (y :: ys1).
        split; [reflexivity|]. split; [|exact Ef].
        cbn [sweep]. rewrite Eg. cbn [bind]. rewrite E1. reflexivity.
      * intros E. injection E as ->.
        exists [], f, rest, []. repeat split. exact Eg.
    + intros (fs1 & f & fs2 & ys1 & -> & E1 & Ef).
      rewrite sweep_app, E1. cbn [bind sweep]. rewrite Ef. reflexivity.
Qed.

Lemma sweep_semantics_witness :
  sweep math_log10 [1; 0; -1] = Raise ValueError /\
  Forall2 (fun f y => math_log10 f = Ok y)
          [1; 10] [ln 1 / ln 10; ln 10 / ln 10].
Proof.
  assert (E1 : math_log10 1 = Ok (ln 1 / ln 10))
    by (apply math_log10_real; lra).
  assert (E10 : math_log10 10 = Ok (ln 10 / ln 10))
    by (apply math_log10_real; lra).
  split.
  - apply (proj2 (@sweep_semantics R R math_log10 [1; 0; -1])).
    exists [1], 0, [-1], [ln 1 / ln 10]. split; [reflexivity|]. split.
    + cbn [sweep]. rewrite E1. reflexivity.
    + apply math_log10_domain. lra.
  - apply (proj1 (@sweep_semantics R R math_log10 [1; 10])).
    cbn [sweep]. rewrite E1, E10. reflexivity.
Defined.
(** ** The text that the first cell prints *)

Lemma round_half_even_near (q : Q) :
  (Qabs (inject_Z (round_half_even q) - q) <= 1 # 2)%Q.
Proof.
  destruct q as [a d]. unfold round_half_even. cbn [Qnum Qden].
  pose proof (Z.div_mod a (Zpos d) ltac:(lia)) as E.
  pose proof (Z.mod_pos_bound a (Zpos d) ltac:(lia)) as B.
  set (fl := (a / Zpos d)%Z) in *. set (r := (a mod Zpos d)%Z) in *.
  apply Qabs_Qle_condition.
  destruct (Z.compare_spec (2 * r) (Zpos d)) as [C|C|C];
    [destruct (Z.even fl)| |];
    unfold Qle, Qminus, Qplus, Qopp, inject_Z; cbn [Qnum Qden]; split; nia.
Qed.

Lemma round_half_even_nonneg (q : Q) :
  (0 <= q)%Q -> (0 <= round_half_even q)%Z.
Proof.
  destruct q as [a d]. unfold Qle, round_half_even. cbn [Qnum Qden].
  intros P. assert (Pa : (0 <= a)%Z) by lia.
  pose proof (Z.div_pos a (Zpos d) Pa ltac:(lia)) as Pf.
  destruct (2 * (a mod Zpos d) ?= Zpos d)%Z; [destruct (Z.even _)| |]; lia.
Qed.

(** What [%.2f] shows is within half a hundredth of the number. *)
Lemma hundredths_near (x : float) (v : Q) (k : Z) :
  float_to_Q x = Some v -> hundredths x = Some k ->
  (0 <= k)%Z /\ (Qabs (inject_Z k / 100 - Qabs v) <= 1 # 200)%Q.
Proof.
  intros Ev Ek. unfold hundredths in Ek. rewrite Ev in Ek.
  injection Ek as <-. split.
  - apply round_half_even_nonneg.
    pose proof (Qabs_nonneg v). Lqa.lra.
  - pose proof (round_half_even_near (Qabs v * 100)) as N.
    apply Qabs_Qle_condition in N. apply Qabs_Qle_condition.
    set (k := inject_Z (round_half_even (Qabs v * 100))) in *.
    set (w := Qabs v) in *.
    assert (E : (k / 100 == k * (1 # 100))%Q) by (unfold Qdiv; reflexivity).
    rewrite E. split; Lqa.lra.
Qed.

Lemma length_append (t u : string) :
  String.length (t ++ u) = (String.length t + String.length u)%nat.
Proof.
  induction t as [|c t IH]; cbn; [reflexivity | rewrite IH; reflexivity].
Qed.

Lemma two_digits_length (r : Z) :
  (0 <= r < 100)%Z -> String.length (two_digits r) = 2%nat.
Proof.
  intros B.
  assert (K : forallb (fun i => Nat.eqb
                         (String.length (two_digits (Z.of_nat i))) 2)
                      (seq 0 100) = true) by (vm_compute; reflexivity).
  rewrite forallb_forall in K. specialize (K (Z.to_nat r)).
  rewrite Z2Nat.id in K by lia. apply Nat.eqb_eq, K, in_seq. lia.
Qed.

(** The width 2 of [%2.2f] never pads: the text has a point and two
    decimals at least. *)
Lemma pad_left_long (t : string) :
  (2 <= String.length t)%nat -> pad_left 2 t = t.
Proof.
  intros L. unfold pad_left.
  replace (2 - String.length t)%nat with 0%nat by lia. reflexivity.
Qed.

(** In a tie the rounding goes to the even neighbour. *)
Lemma round_half_even_tie (q : Q) :
  (Qabs (inject_Z (round_half_even q) - q) == 1 # 2)%Q ->
  Z.even (round_half_even q) = true.
Proof.
  destruct q as [a d]. unfold round_half_even. cbn [Qnum Qden].
  pose proof (Z.div_mod a (Zpos d) ltac:(lia)) as E.
  pose proof (Z.mod_pos_bound a (Zpos d) ltac:(lia)) as B.
  set (fl := (a / Zpos d)%Z) in *. set (r := (a mod Zpos d)%Z) in *.
  destruct (Z.compare_spec (2 * r) (Zpos d)) as [C|C|C].
  - intros _. destruct (Z.even fl) eqn:Ev; [exact Ev|].
    rewrite Z.add_1_r, Z.even_succ, <- Z.negb_even, Ev. reflexivity.
  - unfold Qeq, Qabs, Qminus, Qplus, Qopp, inject_Z. cbn [Qnum Qden].
    intros T. exfalso. nia.
  - unfold Qeq, Qabs, Qminus, Qplus, Qopp, inject_Z. cbn [Qnum Qden].
    intros T. exfalso. nia.
Qed.

Lemma is_nan_spec (x : float) :
  PrimFloat.is_nan x = true -> Prim2SF x = S754_nan.
Proof.
  unfold PrimFloat.is_nan. rewrite FloatAxioms.eqb_spec.
  unfold SFeqb, SFcompare.
  destruct (Prim2SF x) as [sx|sx| |sx mx ex]; try discriminate;
    [destruct sx; discriminate | reflexivity |].
  rewrite Z.compare_refl, Pos.compare_cont_refl.
  destruct sx; discriminate.
Qed.

Lemma ltb_zero_sign_pos (x : float) :
  PrimFloat.ltb 0%float x = true -> SFsign (Prim2SF x) = Some false.
Proof.
  rewrite ltb_spec. change (Prim2SF 0%float) with (S754_zero false).
  unfold SFltb, SFcompare.
  destruct (Prim2SF x) as [sx|sx| |sx mx ex]; cbn [SFsign];
    try discriminate; destruct sx; try discriminate; reflexivity.
Qed.

(** A float that stands for no rational number is the NaN or one of the
    two infinities. *)
Lemma float_to_Q_none (x : float) :
  float_to_Q x = None ->
  PrimFloat.is_nan x = true \/ x = infinity \/ x = neg_infinity.
Proof.
  unfold float_to_Q. destruct (Prim2SF x) as [sx|sx| |sx mx ex] eqn:E;
    try discriminate; intros _.
  - right. destruct sx; [right | left]; apply Prim2SF_inj; rewrite E;
      reflexivity.
  - left. unfold PrimFloat.is_nan. rewrite FloatAxioms.eqb_spec, E.
    reflexivity.
Qed.



(** X19: the output of the first cell in binary64.  When the cell returns
    it has written four lines, the capacitances in nF (the value times 1e9)
    and the resistances in Ohm, each with two decimals; when it raises it
    has written nothing.  With the parameters of the notebook the lines
    are the ones that the notebook stores as the output of the cell. *)
Theorem cell1_output_lines (fc Q C m : float) :
  (forall lines, cell1_output fc Q C m = Ok lines ->
     exists cv,
       synthesize fc Q C m = Ok cv /\
       lines =
         [ (" C1 = " ++ format_2_2f (C1 cv * 1e9)%float ++ " nF")%string;
           (" C2 = " ++ format_2_2f (C2 cv * 1e9)%float ++ " nF")%string;
           (" R1 = " ++ format_2_2f (R1 cv) ++ " Ohm")%string;
           (" R2 = " ++ format_2_2f (R2 cv) ++ " Ohm")%string ]) /\
  (forall e, cell1_output fc Q C m = Raise e <->
             synthesize fc Q C m = Raise e) /\
  notebook_output =
    Ok [ " C1 = 330.00 nF"%string; " C2 = 660.00 nF"%string;
         " R1 = 34102.89 Ohm"%string; " R2 = 34102.89 Ohm"%string ].
Proof.
  split; [|split].
  - intros lines. unfold cell1_output.
    destruct (synthesize fc Q C m) as [cv|e]; cbn [bind]; [|discriminate].
    intros E. injection E as <-. exists cv. split; reflexivity.
  - intros e. unfold cell1_output.
    destruct (synthesize fc Q C m) as [cv|e']; cbn [bind].
    + split; discriminate.
    + split; intros E; injection E as <-; reflexivity.
  - vm_compute. reflexivity.
Qed.

Lemma cell1_output_lines_witness :
  cell1_output 10%float Q_notebook C_notebook 1%float =
    Ok [ " C1 = 330.00 nF"%string; " C2 = 660.00 nF"%string;
         " R1 = 34102.89 Ohm"%string; " R2 = 34102.89 Ohm"%string ] /\
  (exists cv,
     synthesize 10%float Q_notebook C_notebook 1%float = Ok cv /\
     [ " C1 = 330.00 nF"%string; " C2 = 660.00 nF"%string;
       " R1 = 34102.89 Ohm"%string; " R2 = 34102.89 Ohm"%string ] =
       [ (" C1 = " ++ format_2_2f (C1 cv * 1e9)%float ++ " nF")%string;
         (" C2 = " ++ format_2_2f (C2 cv * 1e9)%float ++ " nF")%string;
         (" R1 = " ++ format_2_2f (R1 cv) ++ " Ohm")%string;
         (" R2 = " ++ format_2_2f (R2 cv) ++ " Ohm")%string ]) /\
  cell1_output 0%float Q_notebook C_notebook 1%float =
    Raise ZeroDivisionError.
Proof.
  assert (E : cell1_output 10%float Q_notebook C_notebook 1%float =
              Ok [ " C1 = 330.00 nF"%string; " C2 = 660.00 nF"%string;
                   " R1 = 34102.89 Ohm"%string; " R2 = 34102.89 Ohm"%string ])
    by (vm_compute; reflexivity).
  assert (E0 : synthesize 0%float Q_notebook C_notebook 1%float =
               Raise ZeroDivisionError) by (vm_compute; reflexivity).
  split; [exact E|].
  split; [exact (proj1 (cell1_output_lines 10%float Q_notebook C_notebook
                          1%float) _ E)|].
  exact (proj2 (proj1 (proj2 (cell1_output_lines 0%float Q_notebook C_notebook
                                1%float)) ZeroDivisionError) E0).
Defined.
(** ** Any valid component values *)

(** X20: for any valid component values, designed by the first cell or
    not, the [H] of the second cell is the transfer function of the text,
    H(f) = 1 / (1 - (f/fc)^2 + (f/(Q fc)) j), with the cutoff frequency
    fc = 1 / (2 pi sqrt (R1 R2 C1 C2)) and the quality factor
    Q = sqrt (R1 R2 C1 C2) / (R1 C1 + R2 C1) of the text; and the quality
    factor is at most sqrt (C2 / C1) / 2. *)
Theorem transfer_function_canonical (cv : ComponentValues R) (f : R) :
  valid cv ->
  0 < cutoff_frequency cv /\
  0 < quality_factor cv /\
  H cv f = Ok (H_canonical (cutoff_frequency cv) (quality_factor cv) f) /\
  quality_factor cv <= sqrt (C2 cv / C1 cv) / 2.
Proof.
  intros V. pose proof (spec_denominator_nonzero cv f V) as N.
  destruct V as (HC1 & HC2 & HR1 & HR2). pose proof PI_RGT_0 as Hpi.
  unfold cutoff_frequency, quality_factor.
  set (P := R1 cv * R2 cv * C1 cv * C2 cv).
  set (S := R1 cv * C1 cv + R2 cv * C1 cv).
  assert (HP : 0 < P).
  { unfold P. repeat apply Rmult_lt_0_compat; assumption. }
  assert (HS : 0 < S) by (unfold S; nra).
  pose proof (sqrt_lt_R0 P HP) as Hr.
  pose proof (sqrt_sqrt P (Rlt_le _ _ HP)) as Er.
  split; [|split; [|split]].
  - apply Rdiv_lt_0_compat; [lra|]. apply Rmult_lt_0_compat; lra.
  - apply Rdiv_lt_0_compat; assumption.
  - rewrite H_real by exact N. f_equal. unfold spec_H, H_canonical.
    rewrite spec_denominator_parts. f_equal.
    replace (R1 cv * C1 cv * R2 cv * C2 cv) with P by (unfold P; ring).
    fold S. apply complex_eq.
    + replace ((f / (1 / (2 * PI * sqrt P))) ^ 2)
        with ((2 * PI * f) ^ 2 * (sqrt P * sqrt P)) by (field; lra).
      rewrite Er. reflexivity.
    + field. repeat split; lra.
  - assert (Pq : 0 < C2 cv / C1 cv) by (apply Rdiv_lt_0_compat; assumption).
    apply (Rmult_le_reg_r S); [exact HS|].
    replace (sqrt P / S * S) with (sqrt P) by (field; lra).
    rewrite <- (sqrt_square (sqrt (C2 cv / C1 cv) / 2 * S)).
    + apply sqrt_le_1_alt.
      replace (sqrt (C2 cv / C1 cv) / 2 * S * (sqrt (C2 cv / C1 cv) / 2 * S))
        with (sqrt (C2 cv / C1 cv) * sqrt (C2 cv / C1 cv) * (S * S) / 4)
        by field.
      rewrite sqrt_sqrt by lra.
      replace (C2 cv / C1 cv * (S * S) / 4)
        with (C1 cv * C2 cv * ((R1 cv + R2 cv) * (R1 cv + R2 cv)) / 4)
        by (unfold S; field; lra).
      unfold P.
      assert (K : 0 <= C1 cv * C2 cv * ((R1 cv - R2 cv) * (R1 cv - R2 cv))).
      { apply Rmult_le_pos.
        - apply Rlt_le, Rmult_lt_0_compat; assumption.
        - apply Rle_0_sqr. }
      set (c := C1 cv * C2 cv) in *.
      replace (R1 cv * R2 cv * C1 cv * C2 cv) with (c * (R1 cv * R2 cv))
        by (unfold c; ring).
      replace (c * ((R1 cv + R2 cv) * (R1 cv + R2 cv)) / 4)
        with (c * (R1 cv * R2 cv) +
              c * ((R1 cv - R2 cv) * (R1 cv - R2 cv)) / 4) by field.
      lra.
    + apply Rmult_le_pos; [|lra].
      apply Rmult_le_pos; [apply sqrt_pos | lra].
Qed.

Lemma transfer_function_canonical_witness :
  valid cv_example /\
  0 < cutoff_frequency cv_example /\
  0 < quality_factor cv_example /\
  H cv_example 5 =
    Ok (H_canonical (cutoff_frequency cv_example)
                    (quality_factor cv_example) 5) /\
  quality_factor cv_example <= sqrt (C2 cv_example / C1 cv_example) / 2.
Proof.
  pose proof cv_example_valid as V.
  split; [exact V|].
  apply (transfer_function_canonical cv_example 5 V).
Defined.

(** ** More on the design *)

(** X21: the ratio n = C2 / C1 that the first cell computes is at least
    (2 Q)^2, and it is (2 Q)^2 only for equal resistances, m = 1, as in the
    notebook; a resistor ratio m and its inverse give the same n. *)
Theorem capacitor_ratio_minimal (Q m : R) :
  0 < Q -> 0 < m ->
  exists n0,
    n Q m = Ok n0 /\
    (2 * Q) ^ 2 <= n0 /\
    (n0 = (2 * Q) ^ 2 <-> m = 1) /\
    n Q (/ m) = Ok n0.
Proof.
  intros HQ Hm. exists (spec_n Q m).
  assert (E : spec_n Q m - (2 * Q) ^ 2 = Q ^ 2 * (m - 1) ^ 2 / m)
    by (unfold spec_n; field; lra).
  assert (P : 0 <= Q ^ 2 * (m - 1) ^ 2 / m).
  { apply Rmult_le_pos; [|apply Rlt_le, Rinv_0_lt_compat, Hm].
    apply Rmult_le_pos; apply pow2_ge_0. }
  split; [apply n_real; lra|]. split; [lra|]. split; [split|].
  - intros En. rewrite En in E.
    assert (Z : Q ^ 2 * (m - 1) ^ 2 / m = 0) by lra.
    assert (Z' : Q ^ 2 * (m - 1) ^ 2 = 0).
    { apply (Rmult_eq_reg_r (/ m)); [|apply Rinv_neq_0_compat; lra].
      rewrite Rmult_0_l. exact Z. }
    apply Rmult_integral in Z'. destruct Z' as [Z'|Z']; [nra|].
    assert (m - 1 = 0) by nra. lra.
  - intros ->. unfold spec_n. field.
  - rewrite n_real by (apply Rinv_neq_0_compat; lra). f_equal.
    unfold spec_n. field. lra.
Qed.

Lemma capacitor_ratio_minimal_witness :
  (0 < 1 /\ 0 < 2) /\
  exists n0,
    n 1 2 = Ok n0 /\
    (2 * 1) ^ 2 <= n0 /\
    (n0 = (2 * 1) ^ 2 <-> 2 = 1) /\
    n 1 (/ 2) = Ok n0.
Proof.
  split; [lra|].
  apply (capacitor_ratio_minimal 1 2); lra.
Defined.

(** X22: scaling the capacitance C by k > 0 multiplies both capacitances
    by k and divides both resistances by k, and leaves the gain of the
    filter as it is at every frequency. *)
Theorem impedance_scaling (fc Q C m k : R) :
  0 < fc -> 0 < Q -> 0 < C -> 0 < m -> 0 < k ->
  exists cv cvk,
    synthesize fc Q C m = Ok cv /\
    synthesize fc Q (k * C) m = Ok cvk /\
    C1 cvk = k * C1 cv /\ C2 cvk = k * C2 cv /\
    R1 cvk = R1 cv / k /\ R2 cvk = R2 cv / k /\
    forall f, returns (H cv f) /\ H cvk f = H cv f.
Proof.
  intros Hfc HQ HC Hm Hk.
  assert (HkC : 0 < k * C) by (apply Rmult_lt_0_compat; assumption).
  exists (spec_synthesize fc Q C m), (spec_synthesize fc Q (k * C) m).
  split; [apply synthesize_positive; assumption|].
  split; [apply synthesize_positive; assumption|].
  pose proof PI_RGT_0 as Hpi.
  cbn [C1 C2 R1 R2 spec_synthesize].
  rewrite !spec_R_closed by assumption.
  split; [reflexivity|]. split; [ring|].
  split; [field; repeat split; lra|]. split; [field; repeat split; lra|].
  intros f.
  rewrite !H_real
    by (apply spec_denominator_nonzero, spec_synthesize_valid; assumption).
  split; [eexists; reflexivity|].
  rewrite !spec_H_canonical by assumption. reflexivity.
Qed.

Lemma impedance_scaling_witness :
  (0 < 10 /\ 0 < 1 /\ 0 < 3 /\ 0 < 2 /\ 0 < 5) /\
  exists cv cvk,
    synthesize 10 1 3 2 = Ok cv /\
    synthesize 10 1 (5 * 3) 2 = Ok cvk /\
    C1 cvk = 5 * C1 cv /\ C2 cvk = 5 * C2 cv /\
    R1 cvk = R1 cv / 5 /\ R2 cvk = R2 cv / 5 /\
    forall f, returns (H cv f) /\ H cvk f = H cv f.
Proof.
  split; [lra|].
  apply (impedance_scaling 10 1 3 2 5); lra.
Defined.

(** ** The exceptions of the second cell *)

Lemma complex_zero_dec (z : complex R) :
  {z = Complex 0 0} + {z <> Complex 0 0}.
Proof.
  destruct z as [x y].
  destruct (Req_dec_T x 0) as [->|Nx];
    [|right; intros E; injection E as E _; contradiction].
  destruct (Req_dec_T y 0) as [->|Ny];
    [left; reflexivity | right; intros E; injection E as E; contradiction].
Qed.

(** X23: in exact arithmetic and for any component values, valid or not,
    the only exception of [H], [M] and [A] is the ZeroDivisionError of a
    zero divisor; the ValueError of [math.log10] is out of reach, because
    the modulus of a gain is never zero.  A frequency at which the divisor
    is zero exists exactly when R1 + R2 = 0 and R1 C1 R2 C2 > 0. *)
Theorem second_cell_raises_iff (cv : ComponentValues R) :
  (forall f e,
     (H cv f = Raise e \/ M cv f = Raise e \/ A cv f = Raise e) ->
     e = ZeroDivisionError /\ denominator cv f = Ok (Complex 0 0)) /\
  (forall f,
     denominator cv f = Ok (Complex 0 0) ->
     H cv f = Raise ZeroDivisionError /\
     M cv f = Raise ZeroDivisionError /\
     A cv f = Raise ZeroDivisionError) /\
  ((exists f, raises (H cv f)) <->
     R1 cv + R2 cv = 0 /\ 0 < R1 cv * C1 cv * R2 cv * C2 cv).
Proof.
  assert (Z : forall f, spec_denominator cv f = Complex 0 0 ->
                H cv f = Raise ZeroDivisionError /\
                M cv f = Raise ZeroDivisionError /\
                A cv f = Raise ZeroDivisionError).
  { intros f E. pose proof (H_zero cv f E) as EH.
    split; [exact EH|]. apply (M_A_raise cv f _ EH). }
  split; [|split].
  - intros f e Hr. rewrite denominator_real.
    destruct (complex_zero_dec (spec_denominator cv f)) as [E|N].
    + destruct (Z f E) as (EH & EM & EA). rewrite EH, EM, EA in Hr.
      split; [|rewrite E; reflexivity].
      destruct Hr as [Hr|[Hr|Hr]]; injection Hr as <-; reflexivity.
    + rewrite (H_real cv f N), (M_real cv f N), (A_real cv f N) in Hr.
      destruct Hr as [Hr|[Hr|Hr]]; discriminate.
  - intros f E. rewrite denominator_real in E. apply Z. congruence.
  - pose proof PI_RGT_0 as Hpi.
    set (P := R1 cv * C1 cv * R2 cv * C2 cv). split.
    + intros (f & e & Ee).
      destruct (complex_zero_dec (spec_denominator cv f)) as [E|N];
        [|rewrite (H_real cv f N) in Ee; discriminate].
      rewrite spec_denominator_parts in E. injection E as Ere Eim.
      fold P in Ere.
      assert (Nf : f <> 0) by (intros ->; lra).
      assert (Pw : 0 < (2 * PI * f) ^ 2).
      { assert (2 * PI * f <> 0) by nra.
        pose proof (pow2_ge_0 (2 * PI * f)). nra. }
      assert (HP : 0 < P) by nra.
      split; [|exact HP].
      assert (Es : R1 cv * C1 cv + R2 cv * C1 cv = 0).
      { apply Rmult_integral in Eim. destruct Eim as [Eim|Eim]; [|exact Eim].
        exfalso. nra. }
      assert (NC : C1 cv <> 0).
      { intros E0. unfold P in HP. rewrite E0 in HP. lra. }
      apply (Rmult_eq_reg_r (C1 cv)); [|exact NC]. lra.
    + intros [Es HP]. pose proof (sqrt_lt_R0 P HP) as Hr.
      pose proof (sqrt_sqrt P (Rlt_le _ _ HP)) as Er.
      exists (/ (2 * PI * sqrt P)), ZeroDivisionError.
      apply H_zero. rewrite spec_denominator_parts. fold P.
      apply complex_eq.
      * replace ((2 * PI * / (2 * PI * sqrt P)) ^ 2 * P)
          with (P / (sqrt P * sqrt P)) by (field; lra).
        rewrite Er. field. lra.
      * replace (R1 cv * C1 cv + R2 cv * C1 cv)
          with ((R1 cv + R2 cv) * C1 cv) by ring.
        rewrite Es. ring.
Qed.

Lemma second_cell_raises_iff_witness :
  (R1 cv_degenerate + R2 cv_degenerate = 0 /\
   0 < R1 cv_degenerate * C1 cv_degenerate *
       R2 cv_degenerate * C2 cv_degenerate) /\
  (exists f, raises (H cv_degenerate f)) /\
  denominator cv_degenerate (/ (2 * PI)) = Ok (Complex 0 0) /\
  (H cv_degenerate (/ (2 * PI)) = Raise ZeroDivisionError /\
   M cv_degenerate (/ (2 * PI)) = Raise ZeroDivisionError /\
   A cv_degenerate (/ (2 * PI)) = Raise ZeroDivisionError).
Proof.
  assert (D : R1 cv_degenerate + R2 cv_degenerate = 0 /\
              0 < R1 cv_degenerate * C1 cv_degenerate *
                  R2 cv_degenerate * C2 cv_degenerate)
    by (cbn; split; lra).
  assert (E : denominator cv_degenerate (/ (2 * PI)) = Ok (Complex 0 0))
    by (rewrite denominator_real, degenerate_denominator; reflexivity).
  split; [exact D|].
  split; [exact (proj2 (proj2 (proj2 (second_cell_raises_iff cv_degenerate)))
                   D)|].
  split; [exact E|].
  exact (proj1 (proj2 (second_cell_raises_iff cv_degenerate)) _ E).
Defined.
